(** * ytdl-gui: the clip-range handlers, the video cache and the thumbnail sampler

    A shallow embedding of the front end of the clip tool:
    - the React component [App], in its variant that uses the video cache:
      its state, the timeline handlers [handleTimelineClick] and
      [handleMouseMove] (the same text in the variant without the cache,
      whose first range is [17, 27]), and the submit handler
      [handleGetFormats];
    - the service [VideoStorageService]: [storeVideo], [getVideo],
      [getAllVideos], [deleteVideo], [cleanup] and [generateThumbnails];
    - the other handlers of that component ([handleTimeUpdate],
      [handleDownload], [handleCreateClip], [handleDeleteVideo],
      [handleUseStoredVideo], [formatTime], the style of the selection bar)
      and the submit and download handlers of the variant without the cache.

    Conventions of the embedding.
    - A JavaScript number that holds a time in seconds or a pixel coordinate
      is the rational [Q] it denotes.  Comparison, [Math.max], [Math.min] and
      [Math.abs] are exact on doubles; the results of [+], [-], [*] and [/]
      are rounded.  The timeline handlers [handleTimelineClickIn] and
      [handleMouseMoveIn] and the sampler [generateThumbnailsIn] therefore
      take the four operations as a parameter, an [Arithmetic]: [binary64]
      rounds each result to the nearest double, as the machine does, and
      [exact_arithmetic] does not round.  [handleTimelineClick],
      [handleMouseMove] and [generateThumbnails] are the same functions in
      exact arithmetic.  The style of the selection bar and [formatTime] are
      computed without rounding.
      [NaN] and the infinities are not represented; they arise in the
      handlers only from a division by a zero width or from an overflow, so
      the statements about the handlers ask for a timeline of positive
      width.  Equality of times is [Qeq] ([==]).
    - [Date.now()] is an integer [Z] and timer delays are naturals [N]
      (milliseconds).
    - The IndexedDB object store ['videos'] (key path ['url']) is a finite
      map [gmap string StoredVideo]; [getAll] lists it by ascending key, the
      keys being compared as strings of bytes.
    - A [Blob] is an opaque string of bytes. *)

From Stdlib Require Import ZArith QArith Qabs Qminmax Lqa Lia.
From stdpp Require Import base option list gmap strings sorting.
From Stdlib Require Qround.
From stdpp Require pretty.

Local Open Scope string_scope.
Local Open Scope list_scope.

(** ** Data model *)

Definition Blob := string.

(** [interface VideoFormat] *)
Record VideoFormat := mkVideoFormat {
  format_id : string;
  quality : string;
  ext : string;
  filesize : string;
  resolution : string;
  has_audio : bool;
  format_url : string
}.

(** [interface VideoInfo] *)
Record VideoInfo := mkVideoInfo {
  title : string;
  duration : Q;
  formats : list VideoFormat
}.

(** [interface StoredVideo]; [thumbnails?] is optional in the source. *)
Record StoredVideo := mkStoredVideo {
  url : string;
  stored_title : string;
  blob : Blob;
  timestamp : Z;
  stored_duration : Q;
  stored_thumbnails : option (list string)
}.

(** ['start' | 'end'], the handle being dragged. *)
Inductive Handle := HStart | HEnd.

(** The part of [getBoundingClientRect()] the handlers read. *)
Record DOMRect := mkRect { rect_left : Q; rect_width : Q }.

(** The state of the component [App]: one field per [useState] / [useRef].
    [videoRef] holds the [currentTime] of the preview element when it is
    mounted, [timelineRef] the rectangle of the timeline when it is. *)
Record App := mkApp {
  app_url : string;
  loading : bool;
  error : string;
  videoInfo : option VideoInfo;
  selectedFormat : string;
  startTime : Q;
  endTime : Q;
  acceptedDisclaimer : bool;
  storedVideos : list StoredVideo;
  previewUrl : string;
  videoRef : option Q;
  timelineRef : option DOMRect;
  isDragging : option Handle;
  thumbnails : list string
}.

(** The state right after the first render: [useState(0)], [useState(10)]. *)
Definition initialApp : App :=
  mkApp "" false "" None "" 0 10 false [] "" None None None [].

(** *** State setters *)

Definition setLoading (v : bool) (a : App) : App :=
  mkApp (app_url a) v (error a) (videoInfo a) (selectedFormat a) (startTime a)
        (endTime a) (acceptedDisclaimer a) (storedVideos a) (previewUrl a)
        (videoRef a) (timelineRef a) (isDragging a) (thumbnails a).

Definition setError (v : string) (a : App) : App :=
  mkApp (app_url a) (loading a) v (videoInfo a) (selectedFormat a) (startTime a)
        (endTime a) (acceptedDisclaimer a) (storedVideos a) (previewUrl a)
        (videoRef a) (timelineRef a) (isDragging a) (thumbnails a).

Definition setVideoInfo (v : option VideoInfo) (a : App) : App :=
  mkApp (app_url a) (loading a) (error a) v (selectedFormat a) (startTime a)
        (endTime a) (acceptedDisclaimer a) (storedVideos a) (previewUrl a)
        (videoRef a) (timelineRef a) (isDragging a) (thumbnails a).

Definition setSelectedFormat (v : string) (a : App) : App :=
  mkApp (app_url a) (loading a) (error a) (videoInfo a) v (startTime a)
        (endTime a) (acceptedDisclaimer a) (storedVideos a) (previewUrl a)
        (videoRef a) (timelineRef a) (isDragging a) (thumbnails a).

Definition setStartTime (v : Q) (a : App) : App :=
  mkApp (app_url a) (loading a) (error a) (videoInfo a) (selectedFormat a) v
        (endTime a) (acceptedDisclaimer a) (storedVideos a) (previewUrl a)
        (videoRef a) (timelineRef a) (isDragging a) (thumbnails a).

Definition setEndTime (v : Q) (a : App) : App :=
  mkApp (app_url a) (loading a) (error a) (videoInfo a) (selectedFormat a)
        (startTime a) v (acceptedDisclaimer a) (storedVideos a) (previewUrl a)
        (videoRef a) (timelineRef a) (isDragging a) (thumbnails a).

Definition setStoredVideos (v : list StoredVideo) (a : App) : App :=
  mkApp (app_url a) (loading a) (error a) (videoInfo a) (selectedFormat a)
        (startTime a) (endTime a) (acceptedDisclaimer a) v (previewUrl a)
        (videoRef a) (timelineRef a) (isDragging a) (thumbnails a).

Definition setPreviewUrl (v : string) (a : App) : App :=
  mkApp (app_url a) (loading a) (error a) (videoInfo a) (selectedFormat a)
        (startTime a) (endTime a) (acceptedDisclaimer a) (storedVideos a) v
        (videoRef a) (timelineRef a) (isDragging a) (thumbnails a).

Definition setIsDragging (v : option Handle) (a : App) : App :=
  mkApp (app_url a) (loading a) (error a) (videoInfo a) (selectedFormat a)
        (startTime a) (endTime a) (acceptedDisclaimer a) (storedVideos a)
        (previewUrl a) (videoRef a) (timelineRef a) v (thumbnails a).

Definition setThumbnails (v : list string) (a : App) : App :=
  mkApp (app_url a) (loading a) (error a) (videoInfo a) (selectedFormat a)
        (startTime a) (endTime a) (acceptedDisclaimer a) (storedVideos a)
        (previewUrl a) (videoRef a) (timelineRef a) (isDragging a) v.

(** [videoRef.current.currentTime = v]; the callers test [videoRef.current]
    first where the source does. *)
Definition setCurrentTime (v : Q) (a : App) : App :=
  mkApp (app_url a) (loading a) (error a) (videoInfo a) (selectedFormat a)
        (startTime a) (endTime a) (acceptedDisclaimer a) (storedVideos a)
        (previewUrl a) (Some v) (timelineRef a) (isDragging a) (thumbnails a).

(** ** The arithmetic of the numbers *)

(** The four operations on numbers.  The code computes them in [binary64]
    below; the handlers are written over any arithmetic. *)
Record Arithmetic := mkArithmetic {
  add : Q -> Q -> Q;
  sub : Q -> Q -> Q;
  mul : Q -> Q -> Q;
  div : Q -> Q -> Q
}.

(** The operations of the rationals: no rounding. *)
Definition exact_arithmetic : Arithmetic :=
  mkArithmetic Qplus Qminus Qmult Qdiv.

(** The exponent [k] of the power of two with [2^k <= a < 2^(k+1)], for a
    positive rational. *)
Definition floor_log2 (a : Q) : Z :=
  let k := (Z.log2 (Qnum a) - Z.log2 (Zpos (Qden a)))%Z in
  if Qle_bool (2 ^ k) a then k else (k - 1)%Z.

(** The integer nearest to a rational; of the two nearest, the even one. *)
Definition round_half_even (q : Q) : Z :=
  let f := Qround.Qfloor q in
  match (q - inject_Z f ?= 1 # 2)%Q with
  | Lt => f
  | Gt => (f + 1)%Z
  | Eq => if Z.even f then f else (f + 1)%Z
  end.

(** The double nearest to a rational (IEEE 754 binary64, round to nearest,
    ties to even): 53 significant bits, and the fixed spacing [2^-1074] of
    the subnormal numbers.  Overflow is not represented. *)
Definition round64 (x : Q) : Q :=
  if Qeq_bool x 0 then 0%Q
  else
    let a := Qabs x in
    let shift := Z.max (floor_log2 a - 52) (-1074) in
    let n := round_half_even (a / 2 ^ shift) in
    Qred ((if Qle_bool 0 x then 1 else -1) * inject_Z n * 2 ^ shift).

(** The arithmetic of JavaScript numbers: each result is rounded. *)
Definition binary64 : Arithmetic :=
  mkArithmetic (fun x y => round64 (x + y)) (fun x y => round64 (x - y))
               (fun x y => round64 (x * y)) (fun x y => round64 (x / y)).

(** ** Timeline handlers *)

Definition Qltb (x y : Q) : bool := negb (Qle_bool y x).

(** [handleTimelineClick]: [clientX] is the abscissa of the click. *)
Definition handleTimelineClickIn (ar : Arithmetic) (clientX : Q) (a : App)
  : App :=
  match timelineRef a, videoRef a, videoInfo a with
  | Some rect, Some _, Some info =>
      let x := sub ar clientX (rect_left rect) in
      let percentage := div ar x (rect_width rect) in
      let time := mul ar percentage (duration info) in
      if Qle_bool 0 time && Qle_bool time (duration info) then
        let a' :=
          if Qltb (Qabs (sub ar time (startTime a)))
                  (Qabs (sub ar time (endTime a)))
          then setStartTime (Qmax 0 (Qmin time (sub ar (endTime a) 1))) a
          else setEndTime
                 (Qmin (duration info) (Qmax time (add ar (startTime a) 1))) a
        in setCurrentTime time a'
      else a
  | _, _, _ => a
  end.

(** The same handler in exact arithmetic. *)
Definition handleTimelineClick : Q -> App -> App :=
  handleTimelineClickIn exact_arithmetic.

(** [handleMouseDown] *)
Definition handleMouseDown (type : Handle) (a : App) : App :=
  setIsDragging (Some type) a.

(** [handleMouseMove] *)
Definition handleMouseMoveIn (ar : Arithmetic) (clientX : Q) (a : App)
  : App :=
  match isDragging a, timelineRef a, videoInfo a with
  | Some dragging, Some rect, Some info =>
      let x :=
        Qmax 0 (Qmin (sub ar clientX (rect_left rect)) (rect_width rect)) in
      let percentage := div ar x (rect_width rect) in
      let time := mul ar percentage (duration info) in
      match dragging with
      | HStart =>
          let newStart := Qmax 0 (Qmin time (sub ar (endTime a) 1)) in
          let a' := setStartTime newStart a in
          if videoRef a is Some _ then setCurrentTime newStart a' else a'
      | HEnd =>
          let newEnd :=
            Qmin (duration info) (Qmax time (add ar (startTime a) 1)) in
          let a' := setEndTime newEnd a in
          if videoRef a is Some _ then setCurrentTime newEnd a' else a'
      end
  | _, _, _ => a
  end.

(** The same handler in exact arithmetic. *)
Definition handleMouseMove : Q -> App -> App :=
  handleMouseMoveIn exact_arithmetic.

(** [handleMouseUp] *)
Definition handleMouseUp (a : App) : App := setIsDragging None a.

(** The clip range of a state lies in the video and spans a second. *)
Definition range_ok (D : Q) (a : App) : Prop :=
  (0 <= startTime a /\ endTime a <= D /\ 1 <= endTime a - startTime a)%Q.

(** A state in which the timeline and the preview are mounted over a video
    of the given duration, the timeline 100 pixels wide from the origin. *)
Definition mounted (D s e : Q) (dragging : option Handle) : App :=
  mkApp "u" false "" (Some (mkVideoInfo "t" D [])) "" s e false [] ""
        (Some 0%Q) (Some (mkRect 0 100)) dragging [].

(** What a move of the start edge from [a] to [a'] keeps: the end is not
    touched, the start is not negative, and it is at most the computed
    [endTime - 1] when that is not negative. *)
Definition start_moved (ar : Arithmetic) (a a' : App) : Prop :=
  endTime a' = endTime a
  /\ (0 <= startTime a')%Q
  /\ ((0 <= sub ar (endTime a) 1)%Q ->
      (startTime a' <= sub ar (endTime a) 1)%Q).

(** What a move of the end edge keeps: the start is not touched, the end is
    at most the duration [D], and it is at least the computed
    [startTime + 1] when that is at most [D]. *)
Definition end_moved (ar : Arithmetic) (D : Q) (a a' : App) : Prop :=
  startTime a' = startTime a
  /\ (endTime a' <= D)%Q
  /\ ((add ar (startTime a) 1 <= D)%Q ->
      (add ar (startTime a) 1 <= endTime a')%Q).

(** ** The video cache: [class VideoStorageService] *)

(** The service: [db] tells whether the handle [this.db] is open; [videos] is
    the content of the object store ['videos'] of the database ['VideoCache'],
    which outlives the handle.  Failures of the backing store are not
    modelled. *)
Record VideoStorageService := mkService {
  db : bool;
  videos : gmap string StoredVideo
}.

(** [initialize]: [openDB] with the upgrade callback creating the (empty)
    object store when it is missing. *)
Definition initialize (s : VideoStorageService) : VideoStorageService :=
  mkService true (videos s).

(** [if (!this.db) await this.initialize()] *)
Definition ensureOpen (s : VideoStorageService) : VideoStorageService :=
  if db s then s else initialize s.

(** [storeVideo]: [put] files the record under its key path, [video.url]. *)
Definition storeVideo (video : StoredVideo) (s : VideoStorageService)
  : VideoStorageService :=
  let s := ensureOpen s in
  mkService (db s) (<[url video := video]> (videos s)).

(** [getVideo] *)
Definition getVideo (u : string) (s : VideoStorageService)
  : option StoredVideo * VideoStorageService :=
  let s := ensureOpen s in
  (videos s !! u, s).

(** The order of the keys of an object store: strings, compared byte by
    byte. *)
Definition byKey (p q : string * StoredVideo) : Prop := String.le p.1 q.1.

Global Instance byKey_dec : RelDecision byKey.
Proof. intros p q. unfold byKey. apply _. Defined.

(** The records of a store by ascending key, as [getAll] lists them. *)
Definition inKeyOrder (m : gmap string StoredVideo) : list StoredVideo :=
  (merge_sort byKey (map_to_list m)).*2.

Arguments inKeyOrder : simpl never.

(** [getAllVideos] *)
Definition getAllVideos (s : VideoStorageService)
  : list StoredVideo * VideoStorageService :=
  let s := ensureOpen s in
  (inKeyOrder (videos s), s).

(** [deleteVideo] *)
Definition deleteVideo (u : string) (s : VideoStorageService)
  : VideoStorageService :=
  let s := ensureOpen s in
  mkService (db s) (delete u (videos s)).

Definition dayInMs : Z := 24 * 60 * 60 * 1000.

(** The body of the loop of [cleanup], for one record. *)
Definition sweepStep (now : Z) (s : VideoStorageService) (video : StoredVideo)
  : VideoStorageService :=
  if (dayInMs <? now - timestamp video)%Z then deleteVideo (url video) s else s.

(** [cleanup]; [now] is the value of [Date.now()]. *)
Definition cleanup (now : Z) (s : VideoStorageService) : VideoStorageService :=
  let s := ensureOpen s in
  let '(all, s) := getAllVideos s in
  foldl (sweepStep now) s all.

(** A record is expired at [now] when it is older than a day. *)
Definition expired (now : Z) (video : StoredVideo) : Prop :=
  (dayInMs < now - timestamp video)%Z.

Global Instance expired_dec now video : Decision (expired now video).
Proof. unfold expired. apply _. Defined.

(** Every record of the store sits under its own [url], as [put] with the
    key path ['url'] files it. *)
Definition keyed (m : gmap string StoredVideo) : Prop :=
  forall k v, m !! k = Some v -> url v = k.

Definition hour : Z := 60 * 60 * 1000.


(** Two records, one stored 25 hours and one stored an hour before the
    sweep at [now = 100 * hour]. *)
Definition staleVideo : StoredVideo :=
  mkStoredVideo "old" "Old" "bytes" (75 * hour) 60 None.
Definition freshVideo : StoredVideo :=
  mkStoredVideo "new" "New" "bytes" (99 * hour) 60 (Some []).
Definition twoVideos : VideoStorageService :=
  storeVideo freshVideo (storeVideo staleVideo (mkService false ∅)).

(** ** The thumbnail sampler: [generateThumbnails] *)

(** What the media element does with the blob: the events it fires and when.
    Delays are in milliseconds. *)

(** After [video.currentTime = time]: [seeked] fires after [delay] and the
    frame is drawn and encoded; or it fires and [drawImage] / [toDataURL]
    throws [err]; or it never fires. *)
Inductive SeekOutcome :=
| Seeked (delay : N)
| SeekedDrawFails (delay : N) (err : string)
| NeverSeeked.

(** After [loadedmetadata]: [loadeddata] fires, or [error] does, or neither. *)
Inductive DataOutcome :=
| LoadedData (delay : N)
| DataError (delay : N)
| NoData.

(** After [video.src = ...]: [loadedmetadata] fires with the duration, or
    [error] does, or neither. *)
Inductive LoadOutcome :=
| LoadedMetadata (delay : N) (duration : Q) (data : DataOutcome)
| MediaError (delay : N)
| NoMetadata.

(** A decoder for one blob: how it loads, how its [i]-th seek goes, and the
    encoded picture ([canvas.toDataURL('image/jpeg', 0.7)] after
    [drawImage]) of the frame at a position. *)
Record Decoder := mkDecoder {
  load : LoadOutcome;
  seek : nat -> SeekOutcome;
  frame : Q -> string
}.

(** The timers of one call: the one set at the end of the promise executor
    (30000 ms) and the one set for the [i]-th seek (5000 ms). *)
Inductive Timer := OperationTimer | SeekTimer (i : nat).

Global Instance Timer_eq_dec : EqDecision Timer.
Proof. solve_decision. Defined.

(** How the promise returned by [generateThumbnails] settles. *)
Inductive Outcome :=
| Resolved (thumbnails : list string)
| Rejected (message : string).

(** The state of one call. *)
Record Run := mkRun {
  clock : N;                (* milliseconds since the call *)
  thumbs : list string;     (* the array [thumbnails] *)
  seeks : list Q;           (* the values assigned to [video.currentTime] *)
  revoked : nat;            (* calls of [URL.revokeObjectURL(video.src)] *)
  timers : list Timer       (* timers set, not fired and not cleared *)
}.

Definition at_time (t : N) (r : Run) : Run :=
  mkRun t (thumbs r) (seeks r) (revoked r) (timers r).

Definition setTimeout (t : Timer) (r : Run) : Run :=
  mkRun (clock r) (thumbs r) (seeks r) (revoked r) (timers r ++ [t]).

(** [clearTimeout], and also what firing does to the set of pending timers. *)
Definition clearTimeout (t : Timer) (r : Run) : Run :=
  mkRun (clock r) (thumbs r) (seeks r) (revoked r)
        (filter (fun t' => t' <> t) (timers r)).

Definition revokeObjectURL (r : Run) : Run :=
  mkRun (clock r) (thumbs r) (seeks r) (S (revoked r)) (timers r).

Definition setVideoCurrentTime (time : Q) (r : Run) : Run :=
  mkRun (clock r) (thumbs r) (seeks r ++ [time]) (revoked r) (timers r).

Definition push (thumbnail : string) (r : Run) : Run :=
  mkRun (clock r) (thumbs r ++ [thumbnail]) (seeks r) (revoked r) (timers r).

Definition operationDeadline : N := 30000.
Definition seekDeadline : N := 5000.

Definition SeekTimeout : string := "Seek timeout".
Definition GenerationTimeout : string := "Thumbnail generation timed out".
Definition DecodeError : string := "Failed to load video".
Definition DataLoadError : string := "Failed to load video data".

(** The callback of the operation timer:
    [URL.revokeObjectURL(video.src); reject(new Error(...))]. *)
Definition operationTimeout (r : Run) : Outcome * Run :=
  let r := clearTimeout OperationTimer (at_time operationDeadline r) in
  (Rejected GenerationTimeout, revokeObjectURL r).

(** The [catch] block of the [onloadedmetadata] handler. *)
Definition catch_reject (err : string) (r : Run) : Outcome * Run :=
  (Rejected err, revokeObjectURL r).

(** The outer [video.onerror]. *)
Definition onerror (r : Run) : Outcome * Run :=
  (Rejected DecodeError, revokeObjectURL r).

(** [const time = (duration * i) / numThumbnails] *)
Definition sampleTimeIn (ar : Arithmetic) (duration : Q)
    (numThumbnails i : nat) : Q :=
  div ar (mul ar duration (inject_Z (Z.of_nat i)))
         (inject_Z (Z.of_nat numThumbnails)).

(** The same in exact arithmetic:
    [duration * i / numThumbnails] as a rational. *)
Abbreviation sampleTime := (sampleTimeIn exact_arithmetic).

(** An event that is due at [t] is handled when it comes before the
    operation timer; otherwise that timer fires first and settles the
    promise.  An event on the deadline itself counts as late. *)
Definition before_deadline (t : N) : bool := (t <? operationDeadline)%N.

(** The [for] loop, over the indices still to do. *)
Fixpoint sampleLoopIn (ar : Arithmetic) (dec : Decoder) (duration : Q)
    (numThumbnails : nat) (todo : list nat) (r : Run) : Outcome * Run :=
  match todo with
  | [] =>
      (* URL.revokeObjectURL(video.src); resolve(thumbnails) *)
      let r := revokeObjectURL r in (Resolved (thumbs r), r)
  | i :: todo =>
      let time := sampleTimeIn ar duration numThumbnails i in
      let r := setVideoCurrentTime time r in
      let r := setTimeout (SeekTimer i) r in
      let expire :=
        (* the seek timer fires: reject(new Error('Seek timeout')) *)
        if before_deadline (clock r + seekDeadline)
        then catch_reject SeekTimeout
               (clearTimeout (SeekTimer i) (at_time (clock r + seekDeadline) r))
        else operationTimeout r in
      match seek dec i with
      | Seeked delay =>
          if (delay <? seekDeadline)%N then
            if before_deadline (clock r + delay) then
              let r := at_time (clock r + delay) r in
              let r := push (frame dec time) r in
              let r := clearTimeout (SeekTimer i) r in
              sampleLoopIn ar dec duration numThumbnails todo r
            else operationTimeout r
          else expire
      | SeekedDrawFails delay err =>
          if (delay <? seekDeadline)%N then
            if before_deadline (clock r + delay) then
              let r := at_time (clock r + delay) r in
              let r := clearTimeout (SeekTimer i) r in
              catch_reject err r
            else operationTimeout r
          else expire
      | NeverSeeked => expire
      end
  end.

(** The loop with the sample times computed in exact arithmetic. *)
Abbreviation sampleLoop := (sampleLoopIn exact_arithmetic).

(** [generateThumbnails(videoBlob, numThumbnails)], run on the decoder of
    the blob: how the returned promise settles, and the state of the call at
    that moment. *)
Definition generateThumbnailsIn (ar : Arithmetic) (dec : Decoder)
    (numThumbnails : nat) : Outcome * Run :=
  let r := setTimeout OperationTimer (mkRun 0 [] [] 0 []) in
  match load dec with
  | NoMetadata => operationTimeout r
  | MediaError delay =>
      if before_deadline delay then onerror (at_time delay r)
      else operationTimeout r
  | LoadedMetadata delay duration data =>
      if before_deadline delay then
        match data with
        | NoData => operationTimeout r
        | DataError delay' =>
            if before_deadline (delay + delay')
            then catch_reject DataLoadError (at_time (delay + delay') r)
            else operationTimeout r
        | LoadedData delay' =>
            if before_deadline (delay + delay')
            then sampleLoopIn ar dec duration numThumbnails
                   (seq 0 numThumbnails) (at_time (delay + delay') r)
            else operationTimeout r
        end
      else operationTimeout r
  end.

Arguments generateThumbnailsIn : simpl never.

(** The same call with the sample times computed in exact arithmetic. *)
Abbreviation generateThumbnails := (generateThumbnailsIn exact_arithmetic).

(** The default of the parameter [numThumbnails]. *)
Definition defaultThumbnails : nat := 20.

(** *** Vocabulary for the statements about the sampler *)

(** The time the seeks of a list of indices take together, when the seek
    of index [i] takes [delay i]. *)
Definition elapsed (delay : nat -> N) (todo : list nat) : N :=
  foldr (fun i acc => (delay i + acc)%N) 0%N todo.

(** A seek does not complete within its five seconds. *)
Definition late (o : SeekOutcome) : Prop :=
  match o with
  | Seeked delay | SeekedDrawFails delay _ => (seekDeadline <= delay)%N
  | NeverSeeked => True
  end.

(** How long the loop waits on a seek: until [seeked] or until the seek
    timer, whichever is first. *)
Definition seekWait (o : SeekOutcome) : N :=
  match o with
  | Seeked delay | SeekedDrawFails delay _ => N.min delay seekDeadline
  | NeverSeeked => seekDeadline
  end.

(** When the loading of the blob ends, with [loadeddata] or with an error
    event; [None] when it never does. *)
Definition loadTime (o : LoadOutcome) : option N :=
  match o with
  | LoadedMetadata delay _ (LoadedData delay')
  | LoadedMetadata delay _ (DataError delay') => Some (delay + delay')%N
  | LoadedMetadata _ _ NoData => None
  | MediaError delay => Some delay
  | NoMetadata => None
  end.

(** A blob that decodes: metadata after [m] ms, data after [m'] more, every
    seek answered after [each] ms, the picture of a frame named after its
    index in a 60-second video sampled 20 times. *)
Definition steadyDecoder (m m' each : N) : Decoder :=
  mkDecoder (LoadedMetadata m 60 (LoadedData m'))
            (fun _ => Seeked each)
            (fun t => if Qle_bool t 30 then "early" else "late").


(** The same, but the seek of index [k] never completes. *)
Definition stuckDecoder (m m' each : N) (k : nat) : Decoder :=
  mkDecoder (LoadedMetadata m 60 (LoadedData m'))
            (fun i => if decide (i = k) then NeverSeeked else Seeked each)
            (fun t => if Qle_bool t 30 then "early" else "late").

(** The state of the timers when the promise settles: either only the
    operation timer is pending, or it is the operation timer that fired and
    at most the timer of the seek under way is pending. *)
Definition timers_at_settle (o : Outcome) (r : Run) : Prop :=
  timers r = [OperationTimer]
  \/ (o = Rejected GenerationTimeout
      /\ (timers r = [] \/ exists i, timers r = [SeekTimer i])).

(** ** The submit handler: [handleGetFormats] *)

(** What [fetch] gives: a rejected promise, or a response with its [ok]
    flag and its body. *)
Inductive FetchResult (A : Type) :=
| NetworkFailure (message : string)
| Response (ok : bool) (body : A).
Arguments NetworkFailure {A} message.
Arguments Response {A} ok body.

(** Everything outside the component that the handler consults: the two
    endpoints of the back end, the media element of the browser, the clock. *)
Record Environment := mkEnvironment {
  formatsEndpoint : string -> FetchResult VideoInfo;
  downloadEndpoint : string -> string -> FetchResult Blob;
  decoder : Blob -> Decoder;
  dateNow : Z
}.

(** The effects a handler leaves behind, in the order they happen. *)
Inductive Effect :=
| PostFormats (u : string)
| PostDownload (u : string) (format : string)
| Put (video : StoredVideo).

Record World := mkWorld {
  app : App;
  storage : VideoStorageService;
  trace : list Effect
}.

(** A computation that changes the world and returns or throws. *)
Inductive Completion (A : Type) :=
| Returned (value : A)
| Thrown (message : string).
Arguments Returned {A} value.
Arguments Thrown {A} message.

Definition Async (A : Type) : Type := World -> Completion A * World.

Definition ret {A} (x : A) : Async A := fun w => (Returned x, w).

Definition throw {A} (message : string) : Async A :=
  fun w => (Thrown message, w).

Definition bind {A B} (m : Async A) (k : A -> Async B) : Async B :=
  fun w =>
    match m w with
    | (Returned x, w') => k x w'
    | (Thrown e, w') => (Thrown e, w')
    end.

Declare Scope async_scope.
Delimit Scope async_scope with async.
Notation "x <- m ;; k" := (bind m (fun x => k))
  (at level 100, m at next level, right associativity) : async_scope.
Notation "m ;; k" := (bind m (fun _ => k))
  (at level 100, right associativity) : async_scope.

(** [try { body } catch (err) { handler(err.message) } finally { final }] *)
Definition try_catch_finally (body : Async unit)
    (handler : string -> Async unit) (final : Async unit) : Async unit :=
  fun w =>
    match body w with
    | (Returned tt, w') => final w'
    | (Thrown e, w') => bind (handler e) (fun _ => final) w'
    end.

Definition update (f : App -> App) : Async unit :=
  fun w => (Returned tt, mkWorld (f (app w)) (storage w) (trace w)).

Definition emit (e : Effect) : Async unit :=
  fun w => (Returned tt, mkWorld (app w) (storage w) (trace w ++ [e])).

Definition getVideoM (u : string) : Async (option StoredVideo) :=
  fun w =>
    let '(found, s) := getVideo u (storage w) in
    (Returned found, mkWorld (app w) s (trace w)).

Definition getAllVideosM : Async (list StoredVideo) :=
  fun w =>
    let '(all, s) := getAllVideos (storage w) in
    (Returned all, mkWorld (app w) s (trace w)).

Definition storeVideoM (video : StoredVideo) : Async unit :=
  fun w =>
    (Returned tt,
     mkWorld (app w) (storeVideo video (storage w)) (trace w ++ [Put video])).

(** [await fetch(...)] followed by the test of [response.ok]. *)
Definition fetch_ok {A} (request : Effect) (answer : FetchResult A)
    (failure : string) : Async A :=
  (emit request ;;
   match answer with
   | NetworkFailure message => throw message
   | Response false _ => throw failure
   | Response true body => ret body
   end)%async.

(** [await videoStorage.generateThumbnails(videoBlob)] *)
Definition generateThumbnailsM (env : Environment) (videoBlob : Blob)
  : Async (list string) :=
  match fst (generateThumbnails (decoder env videoBlob) defaultThumbnails) with
  | Resolved thumbnails => ret thumbnails
  | Rejected message => throw message
  end.

Definition createObjectURL (b : Blob) : string := ("blob:" ++ b)%string.

(** The part of [handleGetFormats] that runs on a cache hit. *)
Definition useCached (existingVideo : StoredVideo) : Async unit :=
  (update (setThumbnails (default [] (stored_thumbnails existingVideo))) ;;
   update (setVideoInfo
             (Some (mkVideoInfo (stored_title existingVideo)
                                (stored_duration existingVideo) []))) ;;
   update (setPreviewUrl (createObjectURL (blob existingVideo))) ;;
   update (setLoading false))%async.

(** The part of [handleGetFormats] that runs on a cache miss. *)
Definition fetchAndStore (env : Environment) (u : string) : Async unit :=
  (data <- fetch_ok (PostFormats u) (formatsEndpoint env u)
             "Failed to get video formats" ;;
   match find has_audio (formats data) with
   | None => throw "No suitable preview format found"
   | Some previewFormat =>
       update (setVideoInfo (Some data)) ;;
       match formats data with
       | first :: _ => update (setSelectedFormat (format_id first))
       | [] => ret tt
       end ;;
       videoBlob <- fetch_ok (PostDownload u (format_id previewFormat))
                      (downloadEndpoint env u (format_id previewFormat))
                      "Failed to get video preview" ;;
       newThumbnails <- generateThumbnailsM env videoBlob ;;
       update (setThumbnails newThumbnails) ;;
       update (setPreviewUrl (createObjectURL videoBlob)) ;;
       storeVideoM (mkStoredVideo u (title data) videoBlob (dateNow env)
                                  (duration data) (Some newThumbnails)) ;;
       all <- getAllVideosM ;;
       update (setStoredVideos all)
   end)%async.

(** [handleGetFormats], for the [url] of the current state. *)
Definition handleGetFormats (env : Environment) : Async unit :=
  fun w =>
    let u := app_url (app w) in
    (update (setLoading true) ;;
     update (setError "") ;;
     update (setVideoInfo None) ;;
     update (setPreviewUrl "") ;;
     update (setThumbnails []) ;;
     update (setSelectedFormat "") ;;
     try_catch_finally
       (existingVideo <- getVideoM u ;;
        match existingVideo with
        | Some existingVideo => useCached existingVideo
        | None => fetchAndStore env u
        end)
       (fun message => update (setError message))
       (update (setLoading false)))%async w.

(** The world when the body of the [try] reaches the request for the
    formats: the state is reset and the cache has been consulted. *)
Definition submitted (w : World) : World :=
  mkWorld (setSelectedFormat ""
             (setThumbnails []
                (setPreviewUrl ""
                   (setVideoInfo None (setError "" (setLoading true (app w)))))))
          (ensureOpen (storage w)) (trace w).

(** The records written to the store by a handler, from its trace. *)
Definition puts (t : list Effect) : list StoredVideo :=
  omap (fun e => if e is Put v then Some v else None) t.

(** The format ids of the preview downloads asked for, from a trace. *)
Definition downloads (t : list Effect) : list (string * string) :=
  omap (fun e => if e is PostDownload u f then Some (u, f) else None) t.

(** The scenario of the specification: [/formats] lists ["a"] without audio
    and then ["b"] with audio; the download of ["b"] succeeds and the blob
    decodes. *)
Definition scenarioFormats : list VideoFormat :=
  [ mkVideoFormat "a" "1080p" "mp4" "1" "1920x1080" false "https://a";
    mkVideoFormat "b" "720p" "mp4" "2" "1280x720" true "https://b" ].

Definition scenarioEnv (dec : Decoder) : Environment :=
  mkEnvironment
    (fun _ => Response true (mkVideoInfo "Title" 60 scenarioFormats))
    (fun _ format => if decide (format = "b") then Response true "bytes"
                     else Response false "")
    (fun _ => dec)
    1000.

(** The pictures a settled promise carries. *)
Definition pictures (o : Outcome) : list string :=
  match o with Resolved l => l | Rejected _ => [] end.

Definition scenarioWorld : World :=
  mkWorld (mkApp "u" false "" None "" 0 10 false [] "" None None None [])
          (mkService false ∅) [].

(** * More of the code *)

(** ** More vocabulary for the sampler *)


(** The same blob as [steadyDecoder], but drawing the frame of the seek of
    index [k] throws. *)
Definition taintedDecoder (m m' each : N) (k : nat) : Decoder :=
  mkDecoder (LoadedMetadata m 60 (LoadedData m'))
            (fun i => if decide (i = k)
                      then SeekedDrawFails each "The canvas has been tainted"
                      else Seeked each)
            (fun t => if Qle_bool t 30 then "early" else "late").

(** A blob that is no video: the element fires [error] after [m] ms. *)
Definition brokenDecoder (m : N) : Decoder :=
  mkDecoder (MediaError m) (fun _ => NeverSeeked) (fun _ => "").


(** ** More of the component [App] *)

(** [handleTimeUpdate], the [onTimeUpdate] handler of the preview; the
    boolean tells whether [videoRef.current.play()] was called. *)
Definition handleTimeUpdate (a : App) : App * bool :=
  match videoRef a with
  | Some currentTime =>
      if Qltb currentTime (startTime a)
      then (setCurrentTime (startTime a) a, false)
      else if Qltb (endTime a) currentTime
           then (setCurrentTime (startTime a) a, true)
           else (a, false)
  | None => (a, false)
  end.




(** *** [formatTime] *)

Abbreviation Qfloor := Qround.Qfloor.
Abbreviation Qceiling := Qround.Qceiling.
Abbreviation pretty := pretty.pretty.

(** The integer part of a number, towards zero. *)
Definition jsTrunc (x : Q) : Z :=
  if Qle_bool 0 x then Qfloor x else Qceiling x.

(** [x % y] on numbers, for a nonzero [y]: what is left of [x] after the
    whole multiples of [y], with the sign of [x]. *)
Definition jsRemainder (x y : Q) : Q :=
  (x - y * inject_Z (jsTrunc (x / y)))%Q.

(** [n] characters taken from [pad] over and over, going on at [rest]. *)
Fixpoint fill (n : nat) (pad rest : string) : string :=
  match n with
  | O => ""
  | S n' =>
      match rest with
      | String c rest' => String c (fill n' pad rest')
      | EmptyString =>
          match pad with
          | String c pad' => String c (fill n' pad pad')
          | EmptyString => ""
          end
      end
  end.

(** [s.padStart(targetLength, pad)] *)
Definition padStart (targetLength : nat) (pad s : string) : string :=
  (fill (targetLength - String.length s) pad pad +:+ s)%string.

(** [formatTime], for times up to [labelLimit]: the quotient by 60 is
    computed without rounding, and [toString] of the two integers is their
    decimal writing. *)
Definition formatTime (seconds : Q) : string :=
  let mins := Qfloor (seconds / 60) in
  let secs := Qfloor (jsRemainder seconds 60) in
  (pretty mins +:+ ":" +:+ padStart 2 "0" (pretty secs))%string.

(** The times for which [formatTime] is as above: up to [10^15] seconds.
    Below [2^53] every whole number of seconds and of minutes is a double
    and the rounded quotient [seconds / 60] has the whole part of the exact
    one; from [10^21] on [toString] writes an exponent. *)
Definition labelLimit : Q := 10 ^ 15.

(** The value of a string of decimal digits, read after [acc]. *)
Fixpoint digitsValueFrom (acc : Z) (s : string) : Z :=
  match s with
  | EmptyString => acc
  | String c s' =>
      digitsValueFrom
        (10 * acc + Z.of_nat (default 0%nat (Ascii.is_nat c)))%Z s'
  end.

Definition digitsValue (s : string) : Z := digitsValueFrom 0 s.

(** *** The other handlers of the component *)

Definition setUrl (v : string) (a : App) : App :=
  mkApp v (loading a) (error a) (videoInfo a) (selectedFormat a) (startTime a)
        (endTime a) (acceptedDisclaimer a) (storedVideos a) (previewUrl a)
        (videoRef a) (timelineRef a) (isDragging a) (thumbnails a).

Definition deleteVideoM (u : string) : Async unit :=
  fun w => (Returned tt, mkWorld (app w) (deleteVideo u (storage w)) (trace w)).

(** [handleDeleteVideo]; [url] in its body is the url of the state the
    handler was created in.  The store does not fail in this model, so the
    [catch] is never entered. *)
Definition handleDeleteVideo (videoUrl : string) : Async unit :=
  fun w =>
    let u := app_url (app w) in
    try_catch_finally
      (deleteVideoM videoUrl ;;
       all <- getAllVideosM ;;
       update (setStoredVideos all) ;;
       if decide (u = videoUrl)
       then (update (setThumbnails []) ;; update (setVideoInfo None))
       else ret tt)%async
      (fun _ => update (setError "Failed to delete video"))
      (ret tt) w.

(** [handleUseStoredVideo] *)
Definition handleUseStoredVideo (env : Environment) (videoUrl : string)
  : Async unit :=
  (update (setUrl videoUrl) ;;
   update (setLoading true) ;;
   update (setError "") ;;
   update (setVideoInfo None) ;;
   update (setPreviewUrl "") ;;
   update (setThumbnails []) ;;
   update (setSelectedFormat "") ;;
   try_catch_finally
     (existingVideo <- getVideoM videoUrl ;;
      match existingVideo with
      | Some existingVideo =>
          update (setThumbnails
                    (default [] (stored_thumbnails existingVideo))) ;;
          update (setVideoInfo
                    (Some (mkVideoInfo (stored_title existingVideo)
                                       (stored_duration existingVideo) []))) ;;
          update (setPreviewUrl (createObjectURL (blob existingVideo)))
      | None =>
          data <- fetch_ok (PostFormats videoUrl)
                    (formatsEndpoint env videoUrl)
                    "Failed to get video formats" ;;
          let formatsWithAudio := List.filter has_audio (formats data) in
          update (setVideoInfo
                    (Some (mkVideoInfo (title data) (duration data)
                                       formatsWithAudio))) ;;
          match formatsWithAudio with
          | first :: _ => update (setSelectedFormat (format_id first))
          | [] => ret tt
          end
      end)
     (fun message => update (setError message))
     (update (setLoading false)))%async.

(** What the clip handlers do outside the component: the request to
    [/process-clip] with the fields of its form ([start_time] and [end_time]
    are sent as the decimal writing of the two numbers), and the file saved
    through the temporary link. *)
Inductive ClipEffect :=
| PostProcessClip (video : Blob) (start_time end_time : Q)
| SaveFile (name : string) (content : Blob).

(** [handleCreateClip], for the range of the state [a]; [processClip] is
    the answer of the back end. *)
Definition handleCreateClip (processClip : Blob -> Q -> Q -> FetchResult Blob)
    (a : App) (video : StoredVideo) : Completion unit * list ClipEffect :=
  let request := PostProcessClip (blob video) (startTime a) (endTime a) in
  match processClip (blob video) (startTime a) (endTime a) with
  | NetworkFailure message =>
      (Thrown ("Failed to create clip: " ++ message)%string, [request])
  | Response false _ =>
      (Thrown "Failed to create clip: Failed to process clip", [request])
  | Response true clipBlob =>
      (Returned tt,
       [request; SaveFile (stored_title video ++ "_clip.mp4")%string clipBlob])
  end.

(** [handleDownload] *)
Definition handleDownload (processClip : Blob -> Q -> Q -> FetchResult Blob)
    (w : World) : World * list ClipEffect :=
  let a := app w in
  if bool_decide (selectedFormat a = "") || negb (acceptedDisclaimer a)
     || (if videoInfo a is None then true else false)
  then (w, [])
  else
    let a1 := setError "" (setLoading true a) in
    let '(existingVideo, s) := getVideo (app_url a) (storage w) in
    match existingVideo with
    | None =>
        (mkWorld (setLoading false (setError "Video not found in storage" a1))
                 s (trace w), [])
    | Some existingVideo =>
        match handleCreateClip processClip a existingVideo with
        | (Returned _, effects) =>
            (mkWorld (setLoading false a1) s (trace w), effects)
        | (Thrown message, effects) =>
            (mkWorld (setLoading false (setError message a1)) s (trace w),
             effects)
        end
    end.

(** A world in which the scenario's video is in the cache and the user has
    accepted the disclaimer and picked a format. *)
Definition cachedWorld (format : string) : World :=
  mkWorld (mkApp "u" false "" (Some (mkVideoInfo "Title" 60 [])) format 10 20
                 true [] "" None None None [])
          (storeVideo (mkStoredVideo "u" "Title" "bytes" 1000 60 (Some []))
                      (mkService false ∅))
          [].

Definition clipService : Blob -> Q -> Q -> FetchResult Blob :=
  fun video _ _ => Response true ("clip of " ++ video)%string.

(** The state a submit leaves when it finds the video in the cache. *)
Definition servedFromCache (existingVideo : StoredVideo) (a : App) : App :=
  setLoading false
    (setLoading false
       (setPreviewUrl (createObjectURL (blob existingVideo))
          (setVideoInfo
             (Some (mkVideoInfo (stored_title existingVideo)
                                (stored_duration existingVideo) []))
             (setThumbnails (default [] (stored_thumbnails existingVideo))
                (setSelectedFormat ""
                   (setThumbnails []
                      (setPreviewUrl ""
                         (setVideoInfo None
                            (setError "" (setLoading true a)))))))))).

(** The part of the state that a fetch has no business with: the url, the
    clip range, the disclaimer and the drag. *)
Definition untouched (a a' : App) : Prop :=
  app_url a' = app_url a /\ startTime a' = startTime a
  /\ endTime a' = endTime a
  /\ acceptedDisclaimer a' = acceptedDisclaimer a
  /\ isDragging a' = isDragging a.

(** ** The variant of [App] without the cache

    In [src/frontend/src/App.tsx] the back end keeps the video: the
    component asks it for the formats, for the thumbnails and for the clip
    itself. *)

(** The requests that variant sends, and the file it saves. *)
Inductive RemoteEffect :=
| RemoteFormats (u : string)
| RemoteThumbnails (u : string)
| RemoteDownload (u : string) (format : string) (start_time end_time : Q)
| RemoteSave (name : string) (content : Blob).

(** The answers of the back end to these requests. *)
Record RemoteService := mkRemoteService {
  remoteFormats : string -> FetchResult VideoInfo;
  remoteThumbnails : string -> FetchResult (list string);
  remoteDownload : string -> string -> Q -> Q -> FetchResult Blob
}.

(** [handleGetFormats] of that variant. *)
Definition handleGetFormatsRemote (service : RemoteService) (a : App)
  : App * list RemoteEffect :=
  let u := app_url a in
  let a := setThumbnails []
             (setPreviewUrl ""
                (setVideoInfo None (setError "" (setLoading true a)))) in
  match remoteFormats service u with
  | NetworkFailure message =>
      (setLoading false (setError message a), [RemoteFormats u])
  | Response false _ =>
      (setLoading false (setError "Failed to get video formats" a),
       [RemoteFormats u])
  | Response true data =>
      let a := setVideoInfo (Some data) a in
      let a :=
        match List.filter has_audio (formats data) with
        | first :: _ => setSelectedFormat (format_id first) a
        | [] => a
        end in
      match remoteThumbnails service u with
      | NetworkFailure message =>
          (setLoading false (setError message a),
           [RemoteFormats u; RemoteThumbnails u])
      | Response ok thumbnailData =>
          let a := if ok then setThumbnails thumbnailData a else a in
          (setLoading false (setEndTime 27 (setStartTime 17 a)),
           [RemoteFormats u; RemoteThumbnails u])
      end
  end.

(** [handleDownload] of that variant. *)
Definition handleDownloadRemote (service : RemoteService) (a : App)
  : App * list RemoteEffect :=
  if bool_decide (selectedFormat a = "") || negb (acceptedDisclaimer a)
  then (a, [])
  else
    let a1 := setError "" (setLoading true a) in
    let request :=
      RemoteDownload (app_url a) (selectedFormat a) (startTime a) (endTime a) in
    match remoteDownload service (app_url a) (selectedFormat a)
            (startTime a) (endTime a) with
    | NetworkFailure message =>
        (setLoading false (setError message a1), [request])
    | Response false _ =>
        (setLoading false (setError "Failed to download video" a1), [request])
    | Response true clip =>
        (setLoading false a1, [request; RemoteSave "video_clip.mp4" clip])
    end.

(** A back end that lists the formats of the scenario for a video of the
    given duration, has no thumbnails, and cuts clips. *)
Definition scenarioService (D : Q) (audio : bool) : RemoteService :=
  mkRemoteService
    (fun _ => Response true
                (mkVideoInfo "Title" D
                   (if audio then scenarioFormats
                    else [mkVideoFormat "a" "1080p" "mp4" "1" "1920x1080"
                                        false "https://a"])))
    (fun _ => Response false [])
    (fun u format _ _ =>
       Response true ("clip of " ++ u ++ " in " ++ format)%string).

(** The state of the first render of that variant, with a url typed in and a
    format left selected by an earlier video. *)
Definition remoteApp (format : string) (accepted : bool) : App :=
  mkApp "u" false "" None format 17 27 accepted [] "" None None None [].

(** The same world with another format selected. *)
Definition withFormat (format : string) (w : World) : World :=
  mkWorld (setSelectedFormat format (app w)) (storage w) (trace w).

(** * Properties *)

(** ** Rational arithmetic helpers *)

Lemma Qltb_lt (x y : Q) : Qltb x y = true <-> (x < y)%Q.
Proof.
  unfold Qltb. rewrite negb_true_iff, <- not_true_iff_false, Qle_bool_iff.
  split; [apply Qnot_le_lt | apply Qlt_not_le].
Qed.

Lemma Qltb_ge (x y : Q) : Qltb x y = false <-> (y <= x)%Q.
Proof.
  unfold Qltb. rewrite negb_false_iff, Qle_bool_iff. reflexivity.
Qed.

(** The rounding on some numbers: [1/3] is 0.3333333333333333 (the double
    6004799503160661 / 2^54), [7 / 100 * 100] is 7.000000000000001 (the
    double after 7), adding 1 to it gives 8 (the tie goes to the even
    mantissa), [0.1 + 0.2] is 0.30000000000000004, and a double is left as
    it is. *)
Lemma round64_examples :
  (round64 (1 # 3) == 6004799503160661 # 2 ^ 54)%Q
  /\ (mul binary64 (div binary64 7 100) 100 == 7 + (1 # 2 ^ 50))%Q
  /\ (add binary64 (7 + (1 # 2 ^ 50)) 1 == 8)%Q
  /\ (add binary64 (round64 (1 # 10)) (round64 (2 # 10))
      == round64 (3 # 10) + (1 # 2 ^ 54))%Q
  /\ (round64 (7 + (1 # 2 ^ 50)) == 7 + (1 # 2 ^ 50))%Q
  /\ (round64 (2 ^ 53 + 1) == 2 ^ 53)%Q
  /\ (round64 (- (1 # 3)) == - round64 (1 # 3))%Q.
Proof. repeat split; vm_compute; reflexivity. Qed.

(** [Math.max(0, Math.min(time, lo))], with [lo] the computed
    [endTime - 1] *)
Lemma clamp_start (t lo : Q) :
  (0 <= Qmax 0 (Qmin t lo))%Q
  /\ ((0 <= lo)%Q -> (Qmax 0 (Qmin t lo) <= lo)%Q).
Proof.
  destruct (Q.min_spec t lo) as [[? Hm]|[? Hm]];
    destruct (Q.max_spec 0 (Qmin t lo)) as [[? HM]|[? HM]];
    split; intros; lra.
Qed.

(** [Math.min(duration, Math.max(time, hi))], with [hi] the computed
    [startTime + 1] *)
Lemma clamp_end (t hi D : Q) :
  (Qmin D (Qmax t hi) <= D)%Q
  /\ ((hi <= D)%Q -> (hi <= Qmin D (Qmax t hi))%Q).
Proof.
  destruct (Q.max_spec t hi) as [[? HM]|[? HM]];
    destruct (Q.min_spec D (Qmax t hi)) as [[? Hm]|[? Hm]];
    split; intros; lra.
Qed.

(** ** The clip range *)

Lemma handleTimelineClickIn_eq (ar : Arithmetic) (clientX : Q) (a : App)
    rect cur info :
  timelineRef a = Some rect -> videoRef a = Some cur ->
  videoInfo a = Some info ->
  let t := mul ar (div ar (sub ar clientX (rect_left rect)) (rect_width rect))
               (duration info) in
  (0 <= t <= duration info)%Q ->
  handleTimelineClickIn ar clientX a =
    setCurrentTime t
      (if Qltb (Qabs (sub ar t (startTime a))) (Qabs (sub ar t (endTime a)))
       then setStartTime (Qmax 0 (Qmin t (sub ar (endTime a) 1))) a
       else setEndTime
              (Qmin (duration info) (Qmax t (add ar (startTime a) 1))) a).
Proof.
  intros Hr Hv Hi t [H0 HD]. unfold handleTimelineClickIn.
  rewrite Hr, Hv, Hi. cbv zeta. fold t.
  apply Qle_bool_iff in H0, HD. rewrite H0, HD. reflexivity.
Qed.


(** A click whose time falls outside the video changes nothing. *)
Lemma handleTimelineClickIn_outside (ar : Arithmetic) (clientX : Q) (a : App)
    rect info :
  timelineRef a = Some rect -> videoInfo a = Some info ->
  let t := mul ar (div ar (sub ar clientX (rect_left rect)) (rect_width rect))
               (duration info) in
  ~ (0 <= t <= duration info)%Q ->
  handleTimelineClickIn ar clientX a = a.
Proof.
  intros Hr Hi t Hout. unfold handleTimelineClickIn. rewrite Hr, Hi.
  destruct (videoRef a); [|reflexivity]. cbv zeta. fold t.
  destruct (Qle_bool 0 t) eqn:H0; [|reflexivity].
  destruct (Qle_bool t (duration info)) eqn:HD; [|reflexivity].
  exfalso. apply Hout. split; apply Qle_bool_iff; assumption.
Qed.

Lemma handleMouseMoveIn_start (ar : Arithmetic) (clientX : Q) (a : App)
    rect info :
  isDragging a = Some HStart -> timelineRef a = Some rect ->
  videoInfo a = Some info ->
  let t := mul ar (div ar (Qmax 0 (Qmin (sub ar clientX (rect_left rect))
                                        (rect_width rect)))
                      (rect_width rect)) (duration info) in
  let newStart := Qmax 0 (Qmin t (sub ar (endTime a) 1)) in
  startTime (handleMouseMoveIn ar clientX a) = newStart
  /\ endTime (handleMouseMoveIn ar clientX a) = endTime a
  /\ videoRef (handleMouseMoveIn ar clientX a)
     = (if videoRef a is Some _ then Some newStart else None).
Proof.
  intros Hd Hr Hi. unfold handleMouseMoveIn. rewrite Hd, Hr, Hi. cbv zeta.
  destruct (videoRef a) eqn:Hv; repeat split; try reflexivity;
    cbn [videoRef setStartTime setEndTime]; exact Hv.
Qed.

Lemma handleMouseMoveIn_end (ar : Arithmetic) (clientX : Q) (a : App)
    rect info :
  isDragging a = Some HEnd -> timelineRef a = Some rect ->
  videoInfo a = Some info ->
  let t := mul ar (div ar (Qmax 0 (Qmin (sub ar clientX (rect_left rect))
                                        (rect_width rect)))
                      (rect_width rect)) (duration info) in
  let newEnd := Qmin (duration info) (Qmax t (add ar (startTime a) 1)) in
  endTime (handleMouseMoveIn ar clientX a) = newEnd
  /\ startTime (handleMouseMoveIn ar clientX a) = startTime a
  /\ videoRef (handleMouseMoveIn ar clientX a)
     = (if videoRef a is Some _ then Some newEnd else None).
Proof.
  intros Hd Hr Hi. unfold handleMouseMoveIn. rewrite Hd, Hr, Hi. cbv zeta.
  destruct (videoRef a) eqn:Hv; repeat split; try reflexivity;
    cbn [videoRef setStartTime setEndTime]; exact Hv.
Qed.

(** C1 (as amended).  A click whose computed time [t] has
    [0 <= t <= duration], on a mounted timeline, moves one edge, chosen by
    the two distances as the code computes them, [|t - startTime|] and
    [|t - endTime|] with the subtraction of the arithmetic in use: the start
    edge when the first is strictly less than the second, the end edge
    otherwise -- in particular when the two computed distances are equal.
    The moved edge goes to [t] clamped so that the computed second of span
    remains, the other edge is left alone, and the preview cursor goes to
    [t].  This holds in every arithmetic, that of doubles included. *)
Theorem click_moves_nearer_edge (ar : Arithmetic) (clientX : Q) (a : App)
    rect cur info :
  timelineRef a = Some rect -> videoRef a = Some cur ->
  videoInfo a = Some info -> (0 < rect_width rect)%Q ->
  let t := mul ar (div ar (sub ar clientX (rect_left rect)) (rect_width rect))
               (duration info) in
  (0 <= t <= duration info)%Q ->
  let toStart := Qabs (sub ar t (startTime a)) in
  let toEnd := Qabs (sub ar t (endTime a)) in
  let a' := handleTimelineClickIn ar clientX a in
  ((toStart < toEnd)%Q ->
     startTime a' = Qmax 0 (Qmin t (sub ar (endTime a) 1))
     /\ endTime a' = endTime a)
  /\ ((toEnd <= toStart)%Q ->
     endTime a' = Qmin (duration info) (Qmax t (add ar (startTime a) 1))
     /\ startTime a' = startTime a)
  /\ videoRef a' = Some t.
Proof.
  intros Hr Hv Hi _ t Ht toStart toEnd a'. subst a'.
  rewrite (handleTimelineClickIn_eq ar clientX a rect cur info Hr Hv Hi Ht).
  fold t toStart toEnd. split; [|split].
  - intros H. apply Qltb_lt in H. rewrite H. split; reflexivity.
  - intros H. apply Qltb_ge in H. rewrite H. split; reflexivity.
  - destruct (Qltb toStart toEnd); reflexivity.
Qed.

(** The scenario of the specification, in the arithmetic of doubles: a click
    at 30% of a 100-second video with the range [10, 20] moves the end to
    30. *)
Lemma click_moves_nearer_edge_witness :
  let a := mounted 100 10 20 None in
  (endTime (handleTimelineClickIn binary64 30 a) == 30)%Q
  /\ startTime (handleTimelineClickIn binary64 30 a) = 10%Q.
Proof.
  intros a.
  destruct (click_moves_nearer_edge binary64 30 a (mkRect 0 100) 0%Q
              (mkVideoInfo "t" 100 []) eq_refl eq_refl eq_refl)
    as (_ & Hend & _).
  - reflexivity.
  - split; vm_compute; discriminate.
  - destruct Hend as [He Hs].
    + vm_compute; discriminate.
    + rewrite He, Hs. split; [vm_compute|]; reflexivity.
Defined.

(** C1 (as stated) fails on a tie: with the range [10, 20], a click at 15 is
    as far from the start as from the end, and it is the end that moves (to
    15) while the start stays -- in exact arithmetic and in that of doubles.
    And rounding makes ties of its own: a drag of the start handle to pixel
    28 of 100, on a 100-second video, leaves the start at
    28.000000000000004; a click at 64 seconds is then nearer to the start
    than to the end (at 100), but the two distances are both computed as 36,
    and it is the end that moves. *)
Lemma click_tie_moves_end :
  let a := mounted 100 10 20 None in
  let t := 15%Q in
  let a' := handleTimelineClick 15 a in
  let b' := handleTimelineClickIn binary64 15 a in
  let c := handleMouseUp
             (handleMouseMoveIn binary64 28
                (mounted 100 10 100 (Some HStart))) in
  let c' := handleTimelineClickIn binary64 64 c in
  ((Qabs (t - startTime a) == Qabs (t - endTime a))%Q
   /\ startTime a' = startTime a
   /\ (endTime a' == 15)%Q
   /\ ~ (endTime a' == endTime a)%Q)
  /\ (videoRef b' = Some t
      /\ startTime b' = startTime a
      /\ (endTime b' == 15)%Q
      /\ ~ (endTime b' == endTime a)%Q)
  /\ ((startTime c == 28 + (1 # 2 ^ 48))%Q /\ (endTime c == 100)%Q
      /\ (Qabs (64 - startTime c) < Qabs (64 - endTime c))%Q
      /\ (Qabs (sub binary64 64 (startTime c)) == 36)%Q
      /\ (Qabs (sub binary64 64 (endTime c)) == 36)%Q
      /\ videoRef c' = Some 64%Q
      /\ startTime c' = startTime c
      /\ (endTime c' == 64)%Q).
Proof.
  cbv zeta. repeat split; vm_compute; congruence.
Qed.

(** C2 (as amended).  Every mutation of the clip range -- a drag of either
    handle to any position, or a click -- changes one edge only and clamps
    it.  A moved start is not negative, and is at most the computed
    [endTime - 1] whenever that is not negative; a moved end is at most the
    duration, and is at least the computed [startTime + 1] whenever that is
    at most the duration.  A click that is taken moves one of the two edges
    in that way, and a click that is not taken changes nothing.  This holds
    in every arithmetic, that of doubles included. *)
Theorem mutation_clamps_moved_edge (ar : Arithmetic) (clientX : Q) (a : App)
    rect info :
  timelineRef a = Some rect -> videoInfo a = Some info ->
  (0 < rect_width rect)%Q ->
  (isDragging a = Some HStart ->
     start_moved ar a (handleMouseMoveIn ar clientX a))
  /\ (isDragging a = Some HEnd ->
     end_moved ar (duration info) a (handleMouseMoveIn ar clientX a))
  /\ (forall cur, videoRef a = Some cur ->
      let t := mul ar (div ar (sub ar clientX (rect_left rect))
                          (rect_width rect)) (duration info) in
      let a' := handleTimelineClickIn ar clientX a in
      ((0 <= t <= duration info)%Q ->
         start_moved ar a a' \/ end_moved ar (duration info) a a')
      /\ (~ (0 <= t <= duration info)%Q -> a' = a)).
Proof.
  intros Hr Hi _. split; [|split].
  - intros Hd.
    destruct (handleMouseMoveIn_start ar clientX a rect info Hd Hr Hi)
      as (Hs & He & _).
    unfold start_moved. rewrite Hs, He.
    split; [reflexivity | apply clamp_start].
  - intros Hd.
    destruct (handleMouseMoveIn_end ar clientX a rect info Hd Hr Hi)
      as (He & Hs & _).
    unfold end_moved. rewrite Hs, He.
    split; [reflexivity | apply clamp_end].
  - intros cur Hv t a'. split.
    + intros Ht. subst a'.
      rewrite (handleTimelineClickIn_eq ar clientX a rect cur info
                 Hr Hv Hi Ht).
      fold t. destruct (Qltb _ _); [left | right].
      * unfold start_moved. cbn [setCurrentTime setStartTime startTime endTime].
        split; [reflexivity | apply clamp_start].
      * unfold end_moved. cbn [setCurrentTime setEndTime startTime endTime].
        split; [reflexivity | apply clamp_end].
    + intros Hout.
      exact (handleTimelineClickIn_outside ar clientX a rect info Hr Hi Hout).
Qed.

(** In the arithmetic of doubles, on the range [7.000000000000001, 60] of a
    100-second video: a drag of the end handle to pixel 5 stops the end at
    the computed [startTime + 1], which is 8. *)
Lemma mutation_clamps_moved_edge_witness :
  let a := mounted 100 (7 + (1 # 2 ^ 50)) 60 (Some HEnd) in
  end_moved binary64 100 a (handleMouseMoveIn binary64 5 a)
  /\ (add binary64 (startTime a) 1 == 8)%Q.
Proof.
  intros a.
  destruct (mutation_clamps_moved_edge binary64 5 a (mkRect 0 100)
              (mkVideoInfo "t" 100 []) eq_refl eq_refl) as (_ & Hend & _).
  - reflexivity.
  - split; [exact (Hend eq_refl) | vm_compute; reflexivity].
Defined.

(** C2 (as stated) fails on ranges that lie in the video, with
    [0 <= start < end <= D].  On the range [0, 1/2] of a 100-second video a
    drag of the start handle leaves [0, 1/2]: the clamp to 0 wins over the
    minimum span.  On the range [7.000000000000001, 60], which spans 53
    seconds, a drag of the end handle to pixel 5 leaves the end at 8, the
    rounded [startTime + 1]: the span is then less than a second. *)
Lemma drag_leaves_short_span :
  let a := mounted 100 0 (1 # 2) (Some HStart) in
  let a' := handleMouseMoveIn binary64 40 a in
  let b := mounted 100 (7 + (1 # 2 ^ 50)) 60 (Some HEnd) in
  let b' := handleMouseMoveIn binary64 5 b in
  ((0 <= startTime a)%Q /\ (startTime a < endTime a)%Q
   /\ (endTime a <= 100)%Q
   /\ (startTime a' == 0)%Q /\ (endTime a' == 1 # 2)%Q
   /\ ~ (1 <= endTime a' - startTime a')%Q)
  /\ (range_ok 100 b
      /\ startTime b' = startTime b /\ (endTime b' == 8)%Q
      /\ (endTime b' - startTime b' < 1)%Q
      /\ ~ range_ok 100 b').
Proof.
  cbv zeta. split.
  - repeat split; vm_compute; congruence.
  - split; [repeat split; vm_compute; congruence|].
    split; [reflexivity|]. split; [vm_compute; congruence|].
    split; [vm_compute; congruence|].
    intros (_ & _ & H). vm_compute in H. congruence.
Qed.

(** In exact arithmetic the computed second is a second: a move of the start
    edge gives a range that lies in the video and spans a second as soon as
    the end leaves room for it, [1 <= end <= D], and a move of the end edge
    as soon as the start does, [0 <= start] and [start + 1 <= D]. *)
Lemma start_moved_range_ok (D : Q) (a a' : App) :
  start_moved exact_arithmetic a a' ->
  (1 <= endTime a <= D)%Q -> range_ok D a'.
Proof.
  intros (He & H0 & Hlo) [H1 HD]. unfold range_ok. rewrite He.
  cbn [sub exact_arithmetic] in Hlo. split; [exact H0|]. split; [exact HD|].
  assert (startTime a' <= endTime a - 1)%Q by (apply Hlo; lra). lra.
Qed.

Lemma end_moved_range_ok (D : Q) (a a' : App) :
  end_moved exact_arithmetic D a a' ->
  (0 <= startTime a)%Q -> (startTime a + 1 <= D)%Q -> range_ok D a'.
Proof.
  intros (Hs & HD & Hhi) H0 H1. unfold range_ok. rewrite Hs.
  cbn [add exact_arithmetic] in Hhi. split; [exact H0|]. split; [exact HD|].
  assert (startTime a + 1 <= endTime a')%Q by (apply Hhi; exact H1). lra.
Qed.

(** A range that lies in the video stays in it, whatever the arithmetic and
    whatever is being dragged: after a drag or a click, [0 <= start] and
    [end <= D] as before. *)
Lemma mutation_stays_in_video (ar : Arithmetic) (clientX : Q) (a : App) info :
  videoInfo a = Some info ->
  (forall rect, timelineRef a = Some rect -> (0 < rect_width rect)%Q) ->
  (0 <= startTime a)%Q -> (endTime a <= duration info)%Q ->
  ((0 <= startTime (handleMouseMoveIn ar clientX a))%Q
   /\ (endTime (handleMouseMoveIn ar clientX a) <= duration info)%Q)
  /\ ((0 <= startTime (handleTimelineClickIn ar clientX a))%Q
      /\ (endTime (handleTimelineClickIn ar clientX a) <= duration info)%Q).
Proof.
  intros Hi _ H0 HD. split.
  - unfold handleMouseMoveIn. rewrite Hi.
    destruct (isDragging a) as [[|]|], (timelineRef a) as [rect|];
      try (split; assumption); cbv zeta;
      destruct (videoRef a);
      cbn [startTime endTime setCurrentTime setStartTime setEndTime];
      (split; [first [exact H0 | apply clamp_start]
              | first [exact HD | apply clamp_end]]).
  - unfold handleTimelineClickIn. rewrite Hi.
    destruct (timelineRef a) as [rect|], (videoRef a);
      try (split; assumption); cbv zeta.
    destruct (_ && _); [|split; assumption].
    destruct (Qltb _ _);
      cbn [startTime endTime setCurrentTime setStartTime setEndTime];
      (split; [first [exact H0 | apply clamp_start]
              | first [exact HD | apply clamp_end]]).
Qed.

(** ** The video cache *)

Lemma videos_ensureOpen (s : VideoStorageService) :
  videos (ensureOpen s) = videos s.
Proof. unfold ensureOpen. destruct (db s); reflexivity. Qed.

Lemma videos_storeVideo (video : StoredVideo) (s : VideoStorageService) :
  videos (storeVideo video s) = <[url video := video]> (videos s).
Proof. unfold storeVideo. cbn. rewrite videos_ensureOpen. reflexivity. Qed.

Lemma videos_deleteVideo (u : string) (s : VideoStorageService) :
  videos (deleteVideo u s) = delete u (videos s).
Proof. unfold deleteVideo. cbn. rewrite videos_ensureOpen. reflexivity. Qed.

Lemma getVideo_lookup (u : string) (s : VideoStorageService) :
  (getVideo u s).1 = videos s !! u.
Proof. unfold getVideo. cbn. rewrite videos_ensureOpen. reflexivity. Qed.

Lemma keyed_storeVideo (video : StoredVideo) (s : VideoStorageService) :
  keyed (videos s) -> keyed (videos (storeVideo video s)).
Proof.
  intros Hk k v. rewrite videos_storeVideo, lookup_insert.
  case_decide; [intros [= <-]; assumption | apply Hk].
Qed.

Lemma sweepStep_lookup now s video k :
  videos (sweepStep now s video) !! k =
    if decide (url video = k /\ expired now video) then None
    else videos s !! k.
Proof.
  unfold sweepStep, expired.
  destruct (Z.ltb_spec dayInMs (now - timestamp video)) as [Hlt|Hge].
  - rewrite videos_deleteVideo, lookup_delete.
    repeat case_decide; intuition congruence.
  - case_decide as H; [lia | reflexivity].
Qed.

(** The loop of [cleanup] over any list of records: the keys of the expired
    records of the list go, everything else stays. *)
Lemma sweep_loop now (l : list StoredVideo) : forall s k,
  videos (foldl (sweepStep now) s l) !! k =
    if decide (Exists (fun v => url v = k /\ expired now v) l) then None
    else videos s !! k.
Proof.
  induction l as [|video l IH]; intros s k; cbn [foldl].
  - case_decide as H; [inversion H | reflexivity].
  - rewrite IH, sweepStep_lookup.
    repeat case_decide; try reflexivity.
    + exfalso. match goal with H : ~ Exists _ (_ :: _) |- _ => apply H end.
      apply Exists_cons_tl; assumption.
    + exfalso. match goal with H : ~ Exists _ (_ :: _) |- _ => apply H end.
      apply Exists_cons_hd; assumption.
    + match goal with H : Exists _ (_ :: _) |- _ => inversion H end;
        contradiction.
Qed.

(** [getAll] lists the records of the store, in some order. *)
Lemma inKeyOrder_Permutation (m : gmap string StoredVideo) :
  inKeyOrder m ≡ₚ (map_to_list m).*2.
Proof. unfold inKeyOrder. rewrite merge_sort_Permutation. reflexivity. Qed.

Lemma elem_of_inKeyOrder (m : gmap string StoredVideo) (v : StoredVideo) :
  v ∈ inKeyOrder m <-> exists k, m !! k = Some v.
Proof.
  rewrite inKeyOrder_Permutation, list_elem_of_fmap. split.
  - intros ([k v'] & -> & Hin). exists k. apply elem_of_map_to_list, Hin.
  - intros [k Hin]. exists (k, v). split; [reflexivity|].
    apply elem_of_map_to_list, Hin.
Qed.

Lemma cleanup_unfold now s :
  cleanup now s =
    foldl (sweepStep now) (ensureOpen (ensureOpen s))
          (inKeyOrder (videos (ensureOpen (ensureOpen s)))).
Proof. reflexivity. Qed.

(** What [cleanup] leaves under each key. *)
Lemma cleanup_lookup now s k :
  keyed (videos s) ->
  videos (cleanup now s) !! k =
    match videos s !! k with
    | Some v => if (dayInMs <? now - timestamp v)%Z then None else Some v
    | None => None
    end.
Proof.
  intros Hk. rewrite cleanup_unfold, sweep_loop, !videos_ensureOpen.
  destruct (videos s !! k) as [v|] eqn:Hv.
  - destruct (Z.ltb_spec dayInMs (now - timestamp v)) as [Hlt|Hge].
    + rewrite decide_True; [reflexivity|].
      apply Exists_exists. exists v. split; [|split].
      * apply elem_of_inKeyOrder. exists k. assumption.
      * apply Hk; assumption.
      * assumption.
    + rewrite decide_False; [reflexivity|].
      rewrite Exists_exists. intros (v' & Hin & Hurl & Hexp).
      apply elem_of_inKeyOrder in Hin as [k' Hin].
      rewrite (Hk _ _ Hin) in Hurl. subst k'.
      assert (v' = v) by congruence. subst. unfold expired in Hexp. lia.
  - case_decide; reflexivity.
Qed.

(** C6.  [cleanup] deletes exactly the records whose [timestamp] is older
    than a day before [now] and leaves the others in place: a record is in
    the store after the sweep exactly when it was there before and is not
    expired.  So a record created 25 hours ago is gone, a record created an
    hour ago is still there, and the sweep of an empty store leaves it
    empty. *)
Theorem cleanup_evicts_expired (now : Z) (s : VideoStorageService) :
  keyed (videos s) ->
  (forall k v, videos (cleanup now s) !! k = Some v <->
               videos s !! k = Some v /\ ~ (timestamp v < now - dayInMs)%Z)
  /\ (forall k v, videos s !! k = Some v ->
        timestamp v = (now - 25 * hour)%Z -> videos (cleanup now s) !! k = None)
  /\ (forall k v, videos s !! k = Some v ->
        timestamp v = (now - 1 * hour)%Z ->
        videos (cleanup now s) !! k = Some v)
  /\ (videos s = ∅ -> videos (cleanup now s) = ∅).
Proof.
  intros Hk. split; [|split; [|split]].
  - intros k v. rewrite (cleanup_lookup now s k Hk).
    destruct (videos s !! k) as [v'|]; [|intuition discriminate].
    destruct (Z.ltb_spec dayInMs (now - timestamp v')) as [Hlt|Hge].
    + split; [discriminate|]. intros [[= ->] Hfresh]. lia.
    + split; [intros [= ->]; split; [reflexivity|lia] | intros [H _]; exact H].
  - intros k v Hv Hts. rewrite (cleanup_lookup now s k Hk), Hv.
    destruct (Z.ltb_spec dayInMs (now - timestamp v)) as [_|Hge];
      [reflexivity|].
    rewrite Hts in Hge. unfold dayInMs, hour in Hge. lia.
  - intros k v Hv Hts. rewrite (cleanup_lookup now s k Hk), Hv.
    destruct (Z.ltb_spec dayInMs (now - timestamp v)) as [Hlt|_];
      [|reflexivity].
    rewrite Hts in Hlt. unfold dayInMs, hour in Hlt. lia.
  - intros He. apply map_eq. intros k.
    rewrite (cleanup_lookup now s k Hk), He, !lookup_empty. reflexivity.
Qed.

Lemma keyed_empty : keyed ∅.
Proof. intros k v. rewrite lookup_empty. discriminate. Qed.

Lemma keyed_deleteVideo (u : string) (s : VideoStorageService) :
  keyed (videos s) -> keyed (videos (deleteVideo u s)).
Proof.
  intros Hk k v. rewrite videos_deleteVideo, lookup_delete.
  case_decide; [discriminate | apply Hk].
Qed.

Lemma keyed_cleanup (now : Z) (s : VideoStorageService) :
  keyed (videos s) -> keyed (videos (cleanup now s)).
Proof.
  intros Hk k v. rewrite (cleanup_lookup now s k Hk).
  destruct (videos s !! k) as [v'|] eqn:Hv; [|discriminate].
  destruct (_ <? _)%Z; [discriminate|]. intros [= <-]. apply Hk, Hv.
Qed.

Lemma cleanup_evicts_expired_witness :
  videos (cleanup (100 * hour) twoVideos) !! "old" = None
  /\ videos (cleanup (100 * hour) twoVideos) !! "new" = Some freshVideo.
Proof.
  destruct (cleanup_evicts_expired (100 * hour) twoVideos)
    as (_ & Hold & Hnew & _).
  - unfold twoVideos. do 2 apply keyed_storeVideo. exact keyed_empty.
  - split.
    + apply (Hold "old" staleVideo); reflexivity.
    + apply (Hnew "new" freshVideo); reflexivity.
Defined.

(** C9.  [getVideo] after [storeVideo] of a record returns that very record
    (equal in every field); a second [storeVideo] under the same key replaces
    the first, whatever the first was, and [getVideo] then returns the
    second. *)
Theorem store_get_roundtrip (r r' : StoredVideo) (s : VideoStorageService) :
  (getVideo (url r) (storeVideo r s)).1 = Some r
  /\ (url r' = url r ->
      (getVideo (url r) (storeVideo r' (storeVideo r s))).1 = Some r').
Proof.
  split.
  - rewrite getVideo_lookup, videos_storeVideo. apply lookup_insert_eq.
  - intros Hu. rewrite getVideo_lookup, !videos_storeVideo, Hu.
    apply lookup_insert_eq.
Qed.

Lemma store_get_roundtrip_witness :
  let r := mkStoredVideo "u" "First" "bytes" 1 60 None in
  let r' := mkStoredVideo "u" "Second" "more" 2 61 (Some ["a"]) in
  (getVideo "u" (storeVideo r (mkService false ∅))).1 = Some r
  /\ (getVideo "u" (storeVideo r' (storeVideo r (mkService false ∅)))).1
     = Some r'.
Proof.
  intros r r'.
  destruct (store_get_roundtrip r r' (mkService false ∅)) as [H1 H2].
  split; [exact H1 | exact (H2 eq_refl)].
Defined.

(** ** The thumbnail sampler *)

Lemma elapsed_cons delay (i : nat) (l : list nat) :
  elapsed delay (i :: l) = (delay i + elapsed delay l)%N.
Proof. reflexivity. Qed.

Lemma elapsed_app delay (l l' : list nat) :
  elapsed delay (l ++ l') = (elapsed delay l + elapsed delay l')%N.
Proof.
  induction l as [|i l IH]; [reflexivity|].
  rewrite <- app_comm_cons, !elapsed_cons, IH. lia.
Qed.

Lemma before_deadline_true (t : N) :
  before_deadline t = true <-> (t < operationDeadline)%N.
Proof. unfold before_deadline. apply N.ltb_lt. Qed.

Lemma before_deadline_false (t : N) :
  before_deadline t = false <-> (operationDeadline <= t)%N.
Proof. unfold before_deadline. apply N.ltb_ge. Qed.

(** The operation timer has fired by the time of the event of [H]. *)
Ltac deadline_passed H :=
  apply before_deadline_false in H; rewrite H; reflexivity.

(** *** The loop *)

Section SampleLoop.

Variables (ar : Arithmetic) (dec : Decoder) (D : Q) (n : nat).

(** One turn of the loop whose seek completes in time, before the operation
    timer. *)
Lemma sampleLoop_step i todo r delay :
  seek dec i = Seeked delay -> (delay < seekDeadline)%N ->
  (clock r + delay < operationDeadline)%N ->
  sampleLoopIn ar dec D n (i :: todo) r =
    sampleLoopIn ar dec D n todo
      (clearTimeout (SeekTimer i)
         (push (frame dec (sampleTimeIn ar D n i))
            (at_time (clock r + delay)
               (setTimeout (SeekTimer i)
                  (setVideoCurrentTime (sampleTimeIn ar D n i) r))))).
Proof.
  intros Hs Hd Hc. cbn [sampleLoopIn]. rewrite Hs.
  cbn [clock setTimeout setVideoCurrentTime].
  apply N.ltb_lt in Hd. rewrite Hd.
  apply before_deadline_true in Hc. rewrite Hc. reflexivity.
Qed.


(** The turns of the loop whose seeks complete in time bring it to the
    first index that is left, with one more picture for each. *)
Lemma sampleLoop_prefix (delay : nat -> N) rest : forall pre r,
  (forall j, j ∈ pre -> seek dec j = Seeked (delay j)
                        /\ (delay j < seekDeadline)%N) ->
  (clock r + elapsed delay pre < operationDeadline)%N ->
  exists r',
    sampleLoopIn ar dec D n (pre ++ rest) r = sampleLoopIn ar dec D n rest r'
    /\ clock r' = (clock r + elapsed delay pre)%N
    /\ length (thumbs r') = (length (thumbs r) + length pre)%nat.
Proof.
  induction pre as [|j pre IH]; intros r Hall Htime.
  - exists r. cbn. split; [reflexivity|]. split; lia.
  - rewrite elapsed_cons in Htime.
    destruct (Hall j) as [Hs Hd]; [left|].
    rewrite <- app_comm_cons,
      (sampleLoop_step j (pre ++ rest) r (delay j) Hs Hd) by lia.
    set (r1 := clearTimeout _ _).
    destruct (IH r1) as (r' & Hrun & Hclock & Hlen).
    + intros i Hi. apply Hall. right. exact Hi.
    + subst r1. cbn [clearTimeout push at_time clock]. lia.
    + exists r'. split; [exact Hrun|].
      subst r1. rewrite elapsed_cons.
      cbn [clearTimeout push at_time setTimeout setVideoCurrentTime
           clock thumbs] in Hclock, Hlen.
      rewrite List.length_app in Hlen. cbn [length] in *.
      split; lia.
Qed.

(** A seek that does not complete within its five seconds, the seek timer
    coming before the operation timer. *)
Lemma sampleLoop_seek_timeout k rest r :
  late (seek dec k) ->
  (clock r + seekDeadline < operationDeadline)%N ->
  (sampleLoopIn ar dec D n (k :: rest) r).1 = Rejected SeekTimeout.
Proof.
  intros Hlate Htime. cbn [sampleLoopIn].
  cbn [clock setTimeout setVideoCurrentTime].
  apply before_deadline_true in Htime. rewrite Htime.
  destruct (seek dec k) as [delay|delay err|]; cbn [late] in Hlate;
    try (apply N.ltb_ge in Hlate; rewrite Hlate); reflexivity.
Qed.

(** A seek during which the operation timer fires. *)
Lemma sampleLoop_operation_timeout k rest r :
  (operationDeadline <= clock r + seekWait (seek dec k))%N ->
  (sampleLoopIn ar dec D n (k :: rest) r).1 = Rejected GenerationTimeout.
Proof.
  intros Htime. cbn [sampleLoopIn].
  cbn [clock setTimeout setVideoCurrentTime].
  destruct (seek dec k) as [delay|delay err|]; cbn [seekWait] in Htime.
  - destruct (N.ltb_spec delay seekDeadline) as [Hd|Hd];
      [rewrite N.min_l in Htime by lia | rewrite N.min_r in Htime by lia];
      deadline_passed Htime.
  - destruct (N.ltb_spec delay seekDeadline) as [Hd|Hd];
      [rewrite N.min_l in Htime by lia | rewrite N.min_r in Htime by lia];
      deadline_passed Htime.
  - deadline_passed Htime.
Qed.

(** The loop resolves with a full list or not at all. *)
Lemma sampleLoop_resolved_length : forall todo r l,
  (sampleLoopIn ar dec D n todo r).1 = Resolved l ->
  length l = (length (thumbs r) + length todo)%nat.
Proof.
  induction todo as [|i todo IH]; intros r l.
  - cbn. intros [= <-]. lia.
  - cbn [sampleLoopIn]. cbn [clock setTimeout setVideoCurrentTime].
    destruct (seek dec i) as [delay|delay err|];
      repeat (destruct (_ <? _)%N || destruct (before_deadline _));
      try discriminate.
    intros H. apply IH in H. cbn in H. rewrite List.length_app in H.
    cbn in *. lia.
Qed.

Lemma sampleLoop_resources : forall todo r,
  revoked r = 0%nat -> timers r = [OperationTimer] ->
  revoked (sampleLoopIn ar dec D n todo r).2 = 1%nat
  /\ timers_at_settle (sampleLoopIn ar dec D n todo r).1
                      (sampleLoopIn ar dec D n todo r).2.
Proof.
  unfold timers_at_settle.
  induction todo as [|i todo IH]; intros r Hrev Htim.
  - cbn. rewrite Hrev, Htim. split; [reflexivity | left; reflexivity].
  - assert (filter (fun t' => t' <> SeekTimer i)
              ([OperationTimer] ++ [SeekTimer i]) = [OperationTimer]) as Hclear.
    { cbn. rewrite decide_True by discriminate.
      unfold filter; cbn.
      rewrite decide_False by (intros H; apply H; reflexivity).
      reflexivity. }
    assert (filter (fun t' => t' <> OperationTimer)
              ([OperationTimer] ++ [SeekTimer i]) = [SeekTimer i]) as Hfire.
    { cbn. rewrite decide_False by (intros H; apply H; reflexivity).
      unfold filter; cbn. rewrite decide_True by discriminate.
      reflexivity. }
    cbn [sampleLoopIn]. cbn [clock setTimeout setVideoCurrentTime].
    destruct (seek dec i) as [delay|delay err|];
      repeat (destruct (_ <? _)%N || destruct (before_deadline _));
      try (apply IH; cbn; rewrite ?Hrev, ?Htim, ?Hclear; reflexivity);
      cbn; rewrite Hrev, Htim, ?Hclear, ?Hfire;
      (split; [reflexivity|]);
      solve [ left; reflexivity
            | right; split; [reflexivity | right; exists i; reflexivity] ].
Qed.

End SampleLoop.

(** *** The whole call *)

Lemma generateThumbnails_loaded ar dec n d D d' :
  load dec = LoadedMetadata d D (LoadedData d') ->
  (d + d' < operationDeadline)%N ->
  generateThumbnailsIn ar dec n =
    sampleLoopIn ar dec D n (seq 0 n)
      (at_time (d + d') (setTimeout OperationTimer (mkRun 0 [] [] 0 []))).
Proof.
  intros Hl Ht. unfold generateThumbnailsIn. rewrite Hl.
  assert (before_deadline d = true) as -> by (apply before_deadline_true; lia).
  apply before_deadline_true in Ht. rewrite Ht. reflexivity.
Qed.






(** C10.  With [numThumbnails = 0] on a blob that loads in time the loop
    does no turn: the promise resolves with the empty list, the decoder is
    never sought (no sample time is computed, so nothing is divided by the
    count), and nothing is thrown. *)
Theorem generateThumbnails_zero (dec : Decoder) (d d' : N) (D : Q) :
  load dec = LoadedMetadata d D (LoadedData d') ->
  (d + d' < operationDeadline)%N ->
  (generateThumbnails dec 0).1 = Resolved []
  /\ seeks (generateThumbnails dec 0).2 = [].
Proof.
  intros Hl Ht.
  rewrite (generateThumbnails_loaded exact_arithmetic dec 0 d D d' Hl Ht).
  split; reflexivity.
Qed.

Lemma generateThumbnails_zero_witness :
  (generateThumbnails (steadyDecoder 100 50 200) 0).1 = Resolved []
  /\ seeks (generateThumbnails (steadyDecoder 100 50 200) 0).2 = [].
Proof.
  apply (generateThumbnails_zero (steadyDecoder 100 50 200) 100 50 60 eq_refl).
  reflexivity.
Defined.

Lemma seq_split (k n : nat) :
  (k < n)%nat -> seq 0 n = seq 0 k ++ k :: seq (S k) (n - S k).
Proof.
  intros Hk. replace n with (k + S (n - S k))%nat at 1 by lia.
  rewrite seq_app. reflexivity.
Qed.

(** The run up to the seek of index [k], the earlier seeks having completed
    in time. *)
Lemma generateThumbnails_upto ar dec n d d' D delay k :
  load dec = LoadedMetadata d D (LoadedData d') ->
  (k < n)%nat ->
  (forall j, (j < k)%nat ->
     seek dec j = Seeked (delay j) /\ (delay j < seekDeadline)%N) ->
  (d + d' + elapsed delay (seq 0 k) < operationDeadline)%N ->
  exists r,
    generateThumbnailsIn ar dec n =
      sampleLoopIn ar dec D n (k :: seq (S k) (n - S k)) r
    /\ clock r = (d + d' + elapsed delay (seq 0 k))%N
    /\ length (thumbs r) = k.
Proof.
  intros Hl Hk Hseek Htime.
  rewrite (generateThumbnails_loaded ar dec n d D d' Hl) by lia.
  rewrite (seq_split k n Hk).
  set (r0 := at_time _ _).
  destruct (sampleLoop_prefix ar dec D n delay (k :: seq (S k) (n - S k))
              (seq 0 k) r0) as (r & Hrun & Hclock & Hlen).
  - intros j Hj. apply Hseek. apply elem_of_seq in Hj. lia.
  - subst r0. cbn [at_time clock]. lia.
  - exists r. split; [exact Hrun|]. subst r0.
    cbn [at_time setTimeout clock thumbs length] in Hclock, Hlen.
    rewrite List.length_seq in Hlen. split; [exact Hclock | exact Hlen].
Qed.

(** C4 (as amended).  The failures of [generateThumbnails], for any blob
    and count.
    - When a seek does not complete within its 5 seconds, the seeks before
      it having completed in time, and its 5-second timer runs out before
      the 30-second one, the promise is rejected with ['Seek timeout'].
    - When the 30 seconds run out first -- during a seek, completing or not,
      whatever the number [k] of pictures made so far, or during the loading
      of the blob -- the promise is rejected with ['Thumbnail generation
      timed out'].
    - The promise never resolves with a shorter list: it resolves with
      [numThumbnails] pictures or is rejected. *)
Theorem generateThumbnails_failures (ar : Arithmetic) (dec : Decoder)
    (numThumbnails : nat) :
  (forall d d' D delay k,
     load dec = LoadedMetadata d D (LoadedData d') ->
     (k < numThumbnails)%nat ->
     (forall j, (j < k)%nat ->
        seek dec j = Seeked (delay j) /\ (delay j < seekDeadline)%N) ->
     late (seek dec k) ->
     (d + d' + elapsed delay (seq 0 k) + seekDeadline < operationDeadline)%N ->
     (generateThumbnailsIn ar dec numThumbnails).1 = Rejected SeekTimeout)
  /\ (forall d d' D delay k,
     load dec = LoadedMetadata d D (LoadedData d') ->
     (k < numThumbnails)%nat ->
     (forall j, (j < k)%nat ->
        seek dec j = Seeked (delay j) /\ (delay j < seekDeadline)%N) ->
     (d + d' + elapsed delay (seq 0 k) < operationDeadline)%N ->
     (operationDeadline <=
        d + d' + elapsed delay (seq 0 k) + seekWait (seek dec k))%N ->
     (generateThumbnailsIn ar dec numThumbnails).1 = Rejected GenerationTimeout)
  /\ (forall t, loadTime (load dec) = Some t -> (operationDeadline <= t)%N ->
     (generateThumbnailsIn ar dec numThumbnails).1 = Rejected GenerationTimeout)
  /\ (loadTime (load dec) = None ->
     (generateThumbnailsIn ar dec numThumbnails).1 = Rejected GenerationTimeout)
  /\ (forall thumbnails,
     (generateThumbnailsIn ar dec numThumbnails).1 = Resolved thumbnails ->
     length thumbnails = numThumbnails).
Proof.
  split; [|split; [|split; [|split]]].
  - intros d d' D delay k Hl Hk Hseek Hlate Htime.
    destruct (generateThumbnails_upto ar dec numThumbnails d d' D delay k
                Hl Hk Hseek) as (r & -> & Hclock & _); [lia|].
    apply sampleLoop_seek_timeout; [exact Hlate | lia].
  - intros d d' D delay k Hl Hk Hseek Hstart Htime.
    destruct (generateThumbnails_upto ar dec numThumbnails d d' D delay k
                Hl Hk Hseek Hstart) as (r & -> & Hclock & _).
    apply sampleLoop_operation_timeout. lia.
  - intros t Ht Hlate. unfold generateThumbnailsIn.
    destruct (load dec) as [d D [d'|d'|]|d|]; cbn [loadTime] in Ht;
      try discriminate; injection Ht as <-.
    + destruct (before_deadline d); [|reflexivity]. deadline_passed Hlate.
    + destruct (before_deadline d); [|reflexivity]. deadline_passed Hlate.
    + deadline_passed Hlate.
  - intros Ht. unfold generateThumbnailsIn.
    destruct (load dec) as [d D [d'|d'|]|d|]; cbn [loadTime] in Ht;
      try discriminate; [|reflexivity].
    destruct (before_deadline d); reflexivity.
  - intros l. unfold generateThumbnailsIn.
    destruct (load dec) as [d D [d'|d'|]|d|];
      repeat (destruct (before_deadline _)); try discriminate.
    intros H. apply sampleLoop_resolved_length in H.
    cbn in H. rewrite List.length_seq in H. exact H.
Qed.

(** The seek of index 3 never completes: ['Seek timeout'].  Every seek
    takes 4 seconds: the 30 seconds run out during the eighth, with seven
    pictures made. *)
Lemma generateThumbnails_failures_witness :
  (generateThumbnailsIn binary64 (stuckDecoder 100 50 200 3) 20).1
  = Rejected SeekTimeout
  /\ (generateThumbnailsIn binary64 (steadyDecoder 100 50 4000) 20).1
     = Rejected GenerationTimeout.
Proof.
  split.
  - destruct (generateThumbnails_failures binary64
                (stuckDecoder 100 50 200 3) 20)
      as (Hseek & _).
    apply (Hseek 100%N 50%N 60%Q (fun _ => 200%N) 3%nat eq_refl).
    + lia.
    + intros j Hj. cbn [stuckDecoder seek].
      rewrite decide_False by lia. split; reflexivity.
    + exact I.
    + vm_compute. reflexivity.
  - destruct (generateThumbnails_failures binary64
                (steadyDecoder 100 50 4000) 20)
      as (_ & Hop & _).
    apply (Hop 100%N 50%N 60%Q (fun _ => 4000%N) 7%nat eq_refl).
    + lia.
    + intros j _. split; reflexivity.
    + vm_compute. reflexivity.
    + vm_compute. discriminate.
Defined.

(** C4 (as stated) fails for a seek that hangs near the end of the thirty
    seconds.  On a blob that loads in 150 ms and answers a seek after
    1310 ms, the seek of index 19 starts at 25040 ms and never completes:
    its timer would fire at 30040 ms, the operation timer fires at 30000 ms,
    and the promise is rejected with ['Thumbnail generation timed out'], not
    with ['Seek timeout'].  With 1300 ms for a seek the same hung seek
    starts at 24850 ms and the promise is rejected with ['Seek timeout']. *)
Lemma hung_seek_but_operation_times_out :
  let dec := stuckDecoder 100 50 1310 19 in
  let run := generateThumbnailsIn binary64 dec defaultThumbnails in
  Forall (fun i => seek dec i = Seeked 1310) (seq 0 19)
  /\ (1310 < seekDeadline)%N
  /\ seek dec 19 = NeverSeeked /\ late (seek dec 19)
  /\ run.1 = Rejected GenerationTimeout
  /\ run.1 <> Rejected SeekTimeout
  /\ length (thumbs run.2) = 19%nat
  /\ (generateThumbnailsIn binary64 (stuckDecoder 100 50 1300 19)
        defaultThumbnails).1
     = Rejected SeekTimeout.
Proof.
  cbv zeta. split; [|split; [|split; [|split; [|split; [|split; [|split]]]]]].
  - apply Forall_forall. intros i Hi. apply elem_of_seq in Hi.
    cbn [stuckDecoder seek]. rewrite decide_False by lia. reflexivity.
  - reflexivity.
  - reflexivity.
  - exact I.
  - vm_compute. reflexivity.
  - vm_compute. discriminate.
  - vm_compute. reflexivity.
  - vm_compute. reflexivity.
Qed.

(** C5 (as amended).  On every exit path -- the promise resolved, a seek
    timed out, the operation timed out, the blob did not decode, drawing
    threw -- the object URL has been revoked, once, when the promise
    settles, and no timer of a seek that completed is left.  The operation
    timer is never cleared: it is still pending whenever the promise settles
    otherwise than by that timer; and when that timer settles it during a
    seek, the timer of that seek is still pending. *)
Theorem generateThumbnails_resources (dec : Decoder) (numThumbnails : nat) :
  revoked (generateThumbnails dec numThumbnails).2 = 1%nat
  /\ timers_at_settle (generateThumbnails dec numThumbnails).1
                      (generateThumbnails dec numThumbnails).2.
Proof.
  unfold generateThumbnailsIn.
  destruct (load dec) as [d D [d'|d'|]|d|];
    repeat (destruct (before_deadline _));
    try (apply sampleLoop_resources; reflexivity);
    (split; [reflexivity|]); unfold timers_at_settle;
    solve [ left; reflexivity
          | right; split; [reflexivity | left; reflexivity] ].
Qed.

(** C5 (as stated) fails on the timers.  A run that resolves with its 20
    pictures leaves the operation timer pending; a run that the operation
    timer settles during the eighth seek leaves the timer of that seek
    pending. *)
Lemma timers_left_pending :
  let ok := generateThumbnails (steadyDecoder 100 50 200) 20 in
  let slow := generateThumbnails (steadyDecoder 100 50 4000) 20 in
  (length (pictures ok.1) = 20%nat /\ ok.1 = Resolved (pictures ok.1)
   /\ timers ok.2 = [OperationTimer] /\ timers ok.2 <> [])
  /\ (slow.1 = Rejected GenerationTimeout
      /\ timers slow.2 = [SeekTimer 7] /\ timers slow.2 <> []).
Proof.
  cbv zeta. repeat split; try (vm_compute; reflexivity);
    vm_compute; discriminate.
Qed.

(** ** The submit handler *)

(** What [fetchAndStore] sends and writes, by the way it ends. *)
Lemma fetchAndStore_cases env u w :
  match fetchAndStore env u w with
  | (Returned _, w') =>
      exists data f videoBlob newThumbnails,
        formatsEndpoint env u = Response true data
        /\ find has_audio (formats data) = Some f
        /\ downloadEndpoint env u (format_id f) = Response true videoBlob
        /\ (generateThumbnails (decoder env videoBlob) defaultThumbnails).1
           = Resolved newThumbnails
        /\ let record := mkStoredVideo u (title data) videoBlob (dateNow env)
                           (duration data) (Some newThumbnails) in
           trace w' = trace w ++ [PostFormats u;
                                  PostDownload u (format_id f); Put record]
           /\ videos (storage w') = <[u := record]> (videos (storage w))
  | (Thrown e, w') =>
      storage w' = storage w
      /\ ((trace w' = trace w ++ [PostFormats u]
           /\ match formatsEndpoint env u with
              | NetworkFailure message => e = message
              | Response false _ => e = "Failed to get video formats"
              | Response true data =>
                  find has_audio (formats data) = None
                  /\ e = "No suitable preview format found"
              end)
          \/ (exists data f,
                formatsEndpoint env u = Response true data
                /\ find has_audio (formats data) = Some f
                /\ trace w' = trace w ++ [PostFormats u;
                                          PostDownload u (format_id f)]
                /\ match downloadEndpoint env u (format_id f) with
                   | NetworkFailure message => e = message
                   | Response false _ => e = "Failed to get video preview"
                   | Response true videoBlob =>
                       (generateThumbnails (decoder env videoBlob)
                          defaultThumbnails).1 = Rejected e
                   end))
  end.
Proof.
  unfold fetchAndStore, fetch_ok, bind, update, emit, generateThumbnailsM,
    storeVideoM, getAllVideosM, ret, throw.
  cbn [app storage trace].
  destruct (formatsEndpoint env u) as [message|[|] data] eqn:Hf;
    try (split; [reflexivity|left; split; reflexivity]).
  destruct (find has_audio (formats data)) as [f|] eqn:Hfind;
    [|split; [reflexivity|left; split; [reflexivity|split; reflexivity]]].
  destruct (formats data) as [|first others] eqn:Hfs; cbn [app storage trace];
    (destruct (downloadEndpoint env u (format_id f)) as [message|[|] videoBlob]
       eqn:Hd;
     [ split; [reflexivity|]; right; exists data, f; rewrite Hd, Hfs, <- app_assoc;
       repeat split; assumption || reflexivity
     | destruct (generateThumbnails (decoder env videoBlob) defaultThumbnails).1
         as [newThumbnails|message] eqn:Hg;
       [ unfold getAllVideos; cbn [app storage trace];
         exists data, f, videoBlob, newThumbnails;
         rewrite videos_ensureOpen, videos_storeVideo, Hfs, <- !app_assoc;
         repeat split; assumption || reflexivity
       | split; [reflexivity|]; right; exists data, f;
         rewrite Hd, Hfs, <- app_assoc; repeat split; assumption || reflexivity ]
     | split; [reflexivity|]; right; exists data, f; rewrite Hd, Hfs, <- app_assoc;
       repeat split; assumption || reflexivity ]).
Qed.

Lemma handleGetFormats_miss env w :
  videos (storage w) !! app_url (app w) = None ->
  (handleGetFormats env w).2 =
    match fetchAndStore env (app_url (app w)) (submitted w) with
    | (Returned _, w') =>
        mkWorld (setLoading false (app w')) (storage w') (trace w')
    | (Thrown e, w') =>
        mkWorld (setLoading false (setError e (app w'))) (storage w') (trace w')
    end.
Proof.
  intros Hmiss.
  unfold handleGetFormats, try_catch_finally, bind, update, getVideoM, getVideo.
  cbn [app storage trace app_url setLoading setError setVideoInfo
       setPreviewUrl setThumbnails setSelectedFormat].
  rewrite videos_ensureOpen, Hmiss. fold (submitted w).
  destruct (fetchAndStore env (app_url (app w)) (submitted w)) as [[[]|e] w'];
    reflexivity.
Qed.

Lemma handleGetFormats_hit env w existingVideo :
  videos (storage w) !! app_url (app w) = Some existingVideo ->
  trace (handleGetFormats env w).2 = trace w
  /\ videos (storage (handleGetFormats env w).2) = videos (storage w).
Proof.
  intros Hhit.
  unfold handleGetFormats, try_catch_finally, bind, update, getVideoM, getVideo.
  cbn [app storage trace app_url setLoading setError setVideoInfo
       setPreviewUrl setThumbnails setSelectedFormat].
  rewrite videos_ensureOpen, Hhit. cbn. rewrite videos_ensureOpen.
  split; reflexivity.
Qed.

(** The first element of a list that satisfies a test is what [find]
    returns. *)
Lemma find_first {A} (p : A -> bool) (pre post : list A) (x : A) :
  Forall (fun y => p y = false) pre -> p x = true ->
  find p (pre ++ x :: post) = Some x.
Proof.
  intros Hpre Hx. induction Hpre as [|y pre Hy _ IH]; cbn.
  - rewrite Hx. reflexivity.
  - rewrite Hy. exact IH.
Qed.

Lemma find_none {A} (p : A -> bool) (l : list A) :
  Forall (fun y => p y = false) l -> find p l = None.
Proof.
  intros Hl. induction Hl as [|y l Hy _ IH]; cbn; [reflexivity|].
  rewrite Hy. exact IH.
Qed.

Lemma puts_app (t t' : list Effect) : puts (t ++ t') = puts t ++ puts t'.
Proof. apply omap_app. Qed.

Lemma downloads_app (t t' : list Effect) :
  downloads (t ++ t') = downloads t ++ downloads t'.
Proof. apply omap_app. Qed.

(** C7.  On submit of a URL [u] with no record in the cache:
    - when the answer of [/formats] lists a format with audio, the preview
      download is asked once, for [u] and the [format_id] of the first
      format of the list whose [has_audio] is true;
    - when no listed format has audio, nothing is downloaded or stored, the
      error ['No suitable preview format found'] is shown and [loading] is
      false again, so that the form can be submitted anew;
    - when the download and the thumbnails succeed as well, the record that
      is stored has the key [u] and is what the cache holds under [u]. *)
Theorem submit_uncached (env : Environment) (w : World) :
  let u := app_url (app w) in
  videos (storage w) !! u = None ->
  let w' := (handleGetFormats env w).2 in
  (forall data pre f post,
     formatsEndpoint env u = Response true data ->
     formats data = pre ++ f :: post ->
     Forall (fun g => has_audio g = false) pre -> has_audio f = true ->
     downloads (trace w') = downloads (trace w) ++ [(u, format_id f)])
  /\ (forall data,
     formatsEndpoint env u = Response true data ->
     Forall (fun g => has_audio g = false) (formats data) ->
     error (app w') = "No suitable preview format found"
     /\ loading (app w') = false
     /\ downloads (trace w') = downloads (trace w)
     /\ puts (trace w') = puts (trace w)
     /\ videos (storage w') = videos (storage w))
  /\ (forall data f videoBlob newThumbnails,
     formatsEndpoint env u = Response true data ->
     find has_audio (formats data) = Some f ->
     downloadEndpoint env u (format_id f) = Response true videoBlob ->
     (generateThumbnails (decoder env videoBlob) defaultThumbnails).1
       = Resolved newThumbnails ->
     exists record,
       puts (trace w') = puts (trace w) ++ [record]
       /\ url record = u
       /\ videos (storage w') !! u = Some record
       /\ loading (app w') = false).
Proof.
  intros u Hmiss w'. subst w'. rewrite (handleGetFormats_miss env w Hmiss).
  fold u. pose proof (fetchAndStore_cases env u (submitted w)) as Hcases.
  destruct (fetchAndStore env u (submitted w)) as [[[]|e] w1];
    cbn [app storage trace submitted] in *.
  - destruct Hcases as (data0 & f0 & blob0 & thumbs0 & Hf0 & Hfind0 & Hd0
                        & Hg0 & Htrace & Hvideos).
    rewrite videos_ensureOpen in Hvideos.
    split; [|split].
    + intros data pre f post Hf Hfs Hpre Haudio.
      assert (data0 = data) as -> by congruence.
      rewrite Hfs, (find_first has_audio pre post f Hpre Haudio) in Hfind0.
      injection Hfind0 as <-.
      rewrite Htrace, downloads_app. reflexivity.
    + intros data Hf Hnone.
      assert (data0 = data) as -> by congruence.
      rewrite (find_none has_audio _ Hnone) in Hfind0. discriminate.
    + intros data f videoBlob newThumbnails Hf Hfind Hd Hg.
      assert (data0 = data) as -> by congruence.
      assert (f0 = f) as -> by congruence.
      assert (blob0 = videoBlob) as -> by congruence.
      assert (thumbs0 = newThumbnails) as -> by congruence.
      eexists. rewrite Htrace, puts_app, Hvideos, lookup_insert_eq.
      repeat split; reflexivity.
  - destruct Hcases as [Hstorage Hcause]. rewrite Hstorage, videos_ensureOpen.
    split; [|split].
    + intros data pre f post Hf Hfs Hpre Haudio.
      pose proof (find_first has_audio pre post f Hpre Haudio) as Hfind.
      rewrite <- Hfs in Hfind.
      destruct Hcause as [[_ Hno]|(data0 & f0 & Hf0 & Hfind0 & Htrace & _)].
      * rewrite Hf in Hno. destruct Hno as [Hno _]. congruence.
      * assert (data0 = data) as -> by congruence.
        assert (f0 = f) as -> by congruence.
        rewrite Htrace, downloads_app. reflexivity.
    + intros data Hf Hnone.
      pose proof (find_none has_audio _ Hnone) as Hfind.
      destruct Hcause as [[Htrace Hno]|(data0 & f0 & Hf0 & Hfind0 & _)].
      * rewrite Hf in Hno. destruct Hno as [_ ->].
        rewrite Htrace, downloads_app, puts_app, !app_nil_r.
        repeat split; reflexivity.
      * congruence.
    + intros data f videoBlob newThumbnails Hf Hfind Hd Hg. exfalso.
      destruct Hcause as [[_ Hno]|(data0 & f0 & Hf0 & Hfind0 & _ & Hbad)].
      * rewrite Hf in Hno. destruct Hno as [Hno _]. congruence.
      * assert (data0 = data) as -> by congruence.
        assert (f0 = f) as -> by congruence.
        rewrite Hd, Hg in Hbad. discriminate.
Qed.

Lemma submit_uncached_witness :
  let w' := (handleGetFormats (scenarioEnv (steadyDecoder 100 50 200))
               scenarioWorld).2 in
  downloads (trace w') = [("u", "b")]
  /\ exists record, videos (storage w') !! "u" = Some record
                    /\ url record = "u".
Proof.
  destruct (submit_uncached (scenarioEnv (steadyDecoder 100 50 200))
              scenarioWorld eq_refl) as (Hreq & _ & Hkey).
  split.
  - apply (Hreq (mkVideoInfo "Title" 60 scenarioFormats)
             [mkVideoFormat "a" "1080p" "mp4" "1" "1920x1080" false "https://a"]
             (mkVideoFormat "b" "720p" "mp4" "2" "1280x720" true "https://b")
             [] eq_refl eq_refl).
    + repeat constructor.
    + reflexivity.
  - destruct (Hkey (mkVideoInfo "Title" 60 scenarioFormats)
                (mkVideoFormat "b" "720p" "mp4" "2" "1280x720" true "https://b")
                "bytes"
                (pictures (generateThumbnails (steadyDecoder 100 50 200)
                             defaultThumbnails).1)
                eq_refl eq_refl eq_refl) as (record & _ & Hurl & Hlookup & _).
    + vm_compute. reflexivity.
    + exists record. split; [exact Hlookup | exact Hurl].
Defined.

(** C8.  A run of [handleGetFormats] writes to the store at most once, and
    when it does, the format query, the preview download and the thumbnail
    generation have all succeeded and the record written is the complete
    one.  When the format query fails, or the preview download fails, or the
    thumbnail generation fails, nothing is written and the store is as it
    was. *)
Theorem store_written_once (env : Environment) (w : World) :
  let u := app_url (app w) in
  let w' := (handleGetFormats env w).2 in
  let unwritten :=
    puts (trace w') = puts (trace w)
    /\ videos (storage w') = videos (storage w) in
  (unwritten
   \/ exists data f videoBlob newThumbnails,
        formatsEndpoint env u = Response true data
        /\ find has_audio (formats data) = Some f
        /\ downloadEndpoint env u (format_id f) = Response true videoBlob
        /\ (generateThumbnails (decoder env videoBlob) defaultThumbnails).1
           = Resolved newThumbnails
        /\ let record := mkStoredVideo u (title data) videoBlob (dateNow env)
                           (duration data) (Some newThumbnails) in
           puts (trace w') = puts (trace w) ++ [record]
           /\ videos (storage w') = <[u := record]> (videos (storage w)))
  /\ ((forall data, formatsEndpoint env u <> Response true data) -> unwritten)
  /\ (forall data f,
        formatsEndpoint env u = Response true data ->
        find has_audio (formats data) = Some f ->
        (forall videoBlob,
           downloadEndpoint env u (format_id f) <> Response true videoBlob) ->
        unwritten)
  /\ (forall data f videoBlob message,
        formatsEndpoint env u = Response true data ->
        find has_audio (formats data) = Some f ->
        downloadEndpoint env u (format_id f) = Response true videoBlob ->
        (generateThumbnails (decoder env videoBlob) defaultThumbnails).1
          = Rejected message ->
        unwritten).
Proof.
  intros u w' unwritten.
  assert (unwritten
          \/ exists data f videoBlob newThumbnails,
               formatsEndpoint env u = Response true data
               /\ find has_audio (formats data) = Some f
               /\ downloadEndpoint env u (format_id f) = Response true videoBlob
               /\ (generateThumbnails (decoder env videoBlob)
                     defaultThumbnails).1 = Resolved newThumbnails
               /\ puts (trace w') =
                    puts (trace w) ++
                    [mkStoredVideo u (title data) videoBlob (dateNow env)
                       (duration data) (Some newThumbnails)]
               /\ videos (storage w') =
                    <[u := mkStoredVideo u (title data) videoBlob (dateNow env)
                             (duration data) (Some newThumbnails)]>
                      (videos (storage w))) as Hmain.
  { subst unwritten w'.
    destruct (videos (storage w) !! u) as [existingVideo|] eqn:Hlookup.
    - left. destruct (handleGetFormats_hit env w existingVideo Hlookup)
        as [-> ->]. split; reflexivity.
    - rewrite (handleGetFormats_miss env w Hlookup). fold u.
      pose proof (fetchAndStore_cases env u (submitted w)) as Hcases.
      destruct (fetchAndStore env u (submitted w)) as [[[]|e] w1];
        cbn [app storage trace submitted] in *.
      + right.
        destruct Hcases as (data & f & videoBlob & newThumbnails & Hf & Hfind
                            & Hd & Hg & Htrace & Hvideos).
        exists data, f, videoBlob, newThumbnails.
        rewrite videos_ensureOpen in Hvideos.
        rewrite Htrace, puts_app, Hvideos.
        repeat split; assumption || reflexivity.
      + left. destruct Hcases as [-> Hcause]. rewrite videos_ensureOpen.
        split; [|reflexivity].
        destruct Hcause as [[-> _]|(data & f & _ & _ & -> & _)];
          rewrite puts_app, app_nil_r; reflexivity. }
  split; [exact Hmain|].
  split; [|split].
  - intros Hfail.
    destruct Hmain as [H|(data & f & b & l & Hf & _)]; [exact H|].
    destruct (Hfail data Hf).
  - intros data f Hf Hfind Hfail.
    destruct Hmain as [H|(data0 & f0 & b & l & Hf0 & Hfind0 & Hd & _)];
      [exact H|].
    assert (data0 = data) as -> by congruence.
    assert (f0 = f) as -> by congruence.
    destruct (Hfail b Hd).
  - intros data f videoBlob message Hf Hfind Hd Hg.
    destruct Hmain as [H|(data0 & f0 & b & l & Hf0 & Hfind0 & Hd0 & Hg0 & _)];
      [exact H|].
    assert (data0 = data) as -> by congruence.
    assert (f0 = f) as -> by congruence.
    assert (b = videoBlob) as -> by congruence.
    congruence.
Qed.

(** The thumbnail generation fails (the seek of index 3 never completes):
    nothing is written. *)
Lemma store_written_once_witness :
  let w' := (handleGetFormats (scenarioEnv (stuckDecoder 100 50 200 3))
               scenarioWorld).2 in
  puts (trace w') = [] /\ videos (storage w') = ∅.
Proof.
  destruct (store_written_once (scenarioEnv (stuckDecoder 100 50 200 3))
              scenarioWorld) as (_ & _ & _ & Hthumbs).
  apply (Hthumbs (mkVideoInfo "Title" 60 scenarioFormats)
           (mkVideoFormat "b" "720p" "mp4" "2" "1280x720" true "https://b")
           "bytes" SeekTimeout eq_refl eq_refl eq_refl).
  vm_compute. reflexivity.
Defined.

(** * Further properties *)

(** ** The video cache, continued *)

Lemma getAllVideos_values (s : VideoStorageService) :
  (getAllVideos s).1 = inKeyOrder (videos s).
Proof. unfold getAllVideos. cbn. rewrite videos_ensureOpen. reflexivity. Qed.

(** Under its key each record carries its own url, so the urls of the
    listed records are the keys of the store. *)
Lemma url_inKeyOrder (m : gmap string StoredVideo) :
  keyed m -> url <$> inKeyOrder m = (merge_sort byKey (map_to_list m)).*1.
Proof.
  intros Hk. unfold inKeyOrder. rewrite <- list_fmap_compose.
  apply list_fmap_ext. intros i [k v] Hin.
  apply list_elem_of_lookup_2 in Hin.
  rewrite merge_sort_Permutation in Hin.
  apply elem_of_map_to_list in Hin. cbn. apply Hk, Hin.
Qed.

Global Instance byKey_transitive : Transitive byKey.
Proof. intros p q r. unfold byKey. apply transitivity. Qed.

Global Instance byKey_total : Total byKey.
Proof. intros p q. unfold byKey. apply total, _. Qed.

(** The listed records come by ascending url. *)
Lemma inKeyOrder_sorted (m : gmap string StoredVideo) :
  keyed m -> StronglySorted String.le (url <$> inKeyOrder m).
Proof.
  intros Hk. rewrite (url_inKeyOrder m Hk).
  apply (StronglySorted_fmap fst byKey String.le); [auto|].
  apply StronglySorted_merge_sort; apply _.
Qed.

(** The two records of [twoVideos] are listed with ["new"] before ["old"],
    whatever the order they were stored in. *)
Lemma getAllVideos_by_key :
  (getAllVideos twoVideos).1 = [freshVideo; staleVideo]
  /\ (getAllVideos
        (storeVideo staleVideo (storeVideo freshVideo (mkService false ∅)))).1
     = [freshVideo; staleVideo].
Proof. split; vm_compute; reflexivity. Qed.

Lemma videos_getAllVideos (s : VideoStorageService) :
  videos (getAllVideos s).2 = videos s.
Proof. unfold getAllVideos. cbn. apply videos_ensureOpen. Qed.

Lemma videos_getVideo (u : string) (s : VideoStorageService) :
  videos (getVideo u s).2 = videos s.
Proof. unfold getVideo. cbn. apply videos_ensureOpen. Qed.

(** X1.  [deleteVideo] removes the record of its key and nothing else:
    [getVideo] of that key then finds nothing, every other key is found as
    before, and deleting a key that holds no record leaves the records as
    they were. *)
Theorem deleteVideo_only_its_key (u : string) (s : VideoStorageService) :
  (getVideo u (deleteVideo u s)).1 = None
  /\ (forall k, k <> u ->
        (getVideo k (deleteVideo u s)).1 = (getVideo k s).1)
  /\ (videos s !! u = None -> videos (deleteVideo u s) = videos s).
Proof.
  split; [|split].
  - rewrite getVideo_lookup, videos_deleteVideo. apply lookup_delete_eq.
  - intros k Hk. rewrite !getVideo_lookup, videos_deleteVideo.
    apply lookup_delete_ne. congruence.
  - intros Habsent. rewrite videos_deleteVideo. apply delete_id, Habsent.
Qed.

Lemma deleteVideo_only_its_key_witness :
  (getVideo "new" (deleteVideo "old" twoVideos)).1 = Some freshVideo
  /\ videos (deleteVideo "gone" twoVideos) = videos twoVideos.
Proof.
  destruct (deleteVideo_only_its_key "old" twoVideos) as (_ & Hother & _).
  destruct (deleteVideo_only_its_key "gone" twoVideos) as (_ & _ & Habsent).
  split.
  - rewrite (Hother "new") by discriminate. reflexivity.
  - apply Habsent. reflexivity.
Defined.

(** X2.  [getAllVideos] returns the records of the store and only them, each
    once: a record is listed exactly when the store holds it under its own
    url, there are as many as the store has keys, and no two of the list
    have the same url. *)
Theorem getAllVideos_lists_store (s : VideoStorageService) :
  keyed (videos s) ->
  (forall v, v ∈ (getAllVideos s).1 <-> videos s !! url v = Some v)
  /\ length (getAllVideos s).1 = size (videos s)
  /\ NoDup (url <$> (getAllVideos s).1).
Proof.
  intros Hk. rewrite getAllVideos_values. split; [|split].
  - intros v. rewrite elem_of_inKeyOrder. split.
    + intros [k Hin]. rewrite (Hk _ _ Hin). exact Hin.
    + intros Hv. exists (url v). exact Hv.
  - rewrite inKeyOrder_Permutation, length_fmap. apply length_map_to_list.
  - rewrite (url_inKeyOrder _ Hk), merge_sort_Permutation.
    apply NoDup_fst_map_to_list.
Qed.

Lemma getAllVideos_lists_store_witness :
  length (getAllVideos twoVideos).1 = 2%nat
  /\ freshVideo ∈ (getAllVideos twoVideos).1.
Proof.
  destruct (getAllVideos_lists_store twoVideos) as (Hin & Hlen & _).
  - unfold twoVideos. do 2 apply keyed_storeVideo. exact keyed_empty.
  - split; [rewrite Hlen; reflexivity | apply Hin; reflexivity].
Defined.

(** X3.  [storeVideo] touches only the key of the record it stores: every
    other key is found as before, and the number of records grows by one
    when the key was free and stays the same when it was taken. *)
Theorem storeVideo_only_its_key (video : StoredVideo)
    (s : VideoStorageService) :
  (forall k, k <> url video ->
     (getVideo k (storeVideo video s)).1 = (getVideo k s).1)
  /\ (videos s !! url video = None ->
      size (videos (storeVideo video s)) = S (size (videos s)))
  /\ (forall old, videos s !! url video = Some old ->
      size (videos (storeVideo video s)) = size (videos s)).
Proof.
  split; [|split].
  - intros k Hk. rewrite !getVideo_lookup, videos_storeVideo.
    apply lookup_insert_ne. congruence.
  - intros Hfree. rewrite videos_storeVideo.
    apply map_size_insert_None, Hfree.
  - intros old Htaken. rewrite videos_storeVideo.
    apply map_size_insert_Some. exists old. exact Htaken.
Qed.

Lemma storeVideo_only_its_key_witness :
  (getVideo "old" (storeVideo freshVideo twoVideos)).1 = Some staleVideo
  /\ size (videos (storeVideo freshVideo twoVideos)) = 2%nat
  /\ size (videos (storeVideo freshVideo (mkService false ∅))) = 1%nat.
Proof.
  destruct (storeVideo_only_its_key freshVideo twoVideos)
    as (Hother & _ & Htaken).
  destruct (storeVideo_only_its_key freshVideo (mkService false ∅))
    as (_ & Hfree & _).
  split; [|split].
  - rewrite (Hother "old") by discriminate. reflexivity.
  - rewrite (Htaken freshVideo) by reflexivity. reflexivity.
  - rewrite Hfree by reflexivity. reflexivity.
Defined.

(** X4.  Sweeps compose: a sweep at [now2] after a sweep at an earlier or
    equal [now1] leaves exactly what a single sweep at [now2] leaves.  In
    particular a second sweep at the same time removes nothing more, and the
    hourly sweeps of a session amount to the last one. *)
Theorem cleanup_composes (now1 now2 : Z) (s : VideoStorageService) :
  keyed (videos s) -> (now1 <= now2)%Z ->
  videos (cleanup now2 (cleanup now1 s)) = videos (cleanup now2 s).
Proof.
  intros Hk Hle. apply map_eq. intros k.
  rewrite (cleanup_lookup now2 _ k (keyed_cleanup now1 s Hk)),
    (cleanup_lookup now1 s k Hk), (cleanup_lookup now2 s k Hk).
  destruct (videos s !! k) as [v|]; [|reflexivity].
  destruct (Z.ltb_spec dayInMs (now1 - timestamp v)) as [H1|H1];
    destruct (Z.ltb_spec dayInMs (now2 - timestamp v)) as [H2|H2];
    reflexivity || lia.
Qed.

Lemma cleanup_composes_witness :
  videos (cleanup (124 * hour) (cleanup (100 * hour) twoVideos))
  = videos (cleanup (124 * hour) twoVideos).
Proof.
  apply cleanup_composes.
  - unfold twoVideos. do 2 apply keyed_storeVideo. exact keyed_empty.
  - vm_compute. discriminate.
Defined.

(** ** The thumbnail sampler, continued *)


Section SampleLoopInvariants.

Variables (dec : Decoder) (D : Q) (n : nat).

(** The loop never lets the clock pass the operation deadline. *)
Lemma sampleLoop_clock : forall todo r,
  (clock r <= operationDeadline)%N ->
  (clock (sampleLoop dec D n todo r).2 <= operationDeadline)%N.
Proof.
  induction todo as [|i todo IH]; intros r Hr; [exact Hr|].
  cbn [sampleLoopIn]. cbn [clock setTimeout setVideoCurrentTime].
  destruct (seek dec i) as [delay|delay err|];
    repeat match goal with
           | |- context [before_deadline ?t] =>
               destruct (before_deadline t) eqn:?
           | |- context [(?a <? ?b)%N] => destruct (a <? b)%N eqn:?
           end;
    try (apply IH; cbn);
    cbn;
    repeat match goal with
           | H : before_deadline _ = true |- _ =>
               apply before_deadline_true in H
           end;
    unfold operationDeadline in *; lia.
Qed.


End SampleLoopInvariants.

(** X5.  The promise of [generateThumbnails] always settles within the 30
    seconds of the operation timer, whatever the blob, the decoder and the
    count: the clock of the call at the moment it settles is at most
    30000 ms. *)
Theorem generateThumbnails_settles_by_deadline (dec : Decoder)
    (numThumbnails : nat) :
  (clock (generateThumbnails dec numThumbnails).2 <= operationDeadline)%N.
Proof.
  unfold generateThumbnailsIn.
  destruct (load dec) as [d D [d'|d'|]|d|];
    repeat match goal with
           | |- context [before_deadline ?t] =>
               destruct (before_deadline t) eqn:?
           end;
    try (apply sampleLoop_clock);
    cbn;
    repeat match goal with
           | H : before_deadline _ = true |- _ =>
               apply before_deadline_true in H
           end;
    unfold operationDeadline in *; lia.
Qed.



(** X7.  The failures that are no timeout.
    - A blob the element cannot load ([error] before the metadata, before
      the 30 seconds) is rejected with ['Failed to load video'], and one whose
      data fail after the metadata with ['Failed to load video data']; in
      both cases before any seek and with no picture made.
    - When drawing or encoding the frame of the seek of index [k] throws
      (the seeks before it having completed in time), the promise is rejected
      with that very error and the [k] pictures made so far are dropped with
      it. *)
Theorem generateThumbnails_decode_and_draw_errors (dec : Decoder)
    (numThumbnails : nat) :
  let run := generateThumbnails dec numThumbnails in
  (forall d, load dec = MediaError d -> (d < operationDeadline)%N ->
     run.1 = Rejected DecodeError /\ seeks run.2 = [] /\ thumbs run.2 = [])
  /\ (forall d D d',
     load dec = LoadedMetadata d D (DataError d') ->
     (d + d' < operationDeadline)%N ->
     run.1 = Rejected DataLoadError /\ seeks run.2 = [] /\ thumbs run.2 = [])
  /\ (forall d d' D delay k late_by err,
     load dec = LoadedMetadata d D (LoadedData d') ->
     (k < numThumbnails)%nat ->
     (forall j, (j < k)%nat ->
        seek dec j = Seeked (delay j) /\ (delay j < seekDeadline)%N) ->
     seek dec k = SeekedDrawFails late_by err ->
     (late_by < seekDeadline)%N ->
     (d + d' + elapsed delay (seq 0 k) + late_by < operationDeadline)%N ->
     run.1 = Rejected err /\ length (thumbs run.2) = k).
Proof.
  intros run. subst run. split; [|split].
  - intros d Hl Hd. unfold generateThumbnailsIn. rewrite Hl.
    apply before_deadline_true in Hd. rewrite Hd. repeat split.
  - intros d D d' Hl Hd. unfold generateThumbnailsIn. rewrite Hl.
    assert (before_deadline d = true) as ->
      by (apply before_deadline_true; lia).
    apply before_deadline_true in Hd. rewrite Hd. repeat split.
  - intros d d' D delay k late_by err Hl Hk Hseek Hfail Hlate Htime.
    destruct (generateThumbnails_upto exact_arithmetic dec numThumbnails d d' D delay k
                Hl Hk Hseek) as (r & -> & Hclock & Hlen); [lia|].
    cbn [sampleLoopIn]. cbn [clock setTimeout setVideoCurrentTime].
    rewrite Hfail. apply N.ltb_lt in Hlate. rewrite Hlate.
    assert (before_deadline (clock r + late_by) = true) as ->
      by (apply before_deadline_true; lia).
    split; [reflexivity | exact Hlen].
Qed.

Lemma generateThumbnails_decode_and_draw_errors_witness :
  (generateThumbnails (brokenDecoder 40) 20).1 = Rejected DecodeError
  /\ (generateThumbnails (taintedDecoder 100 50 200 5) 20).1
     = Rejected "The canvas has been tainted"
  /\ length (thumbs (generateThumbnails (taintedDecoder 100 50 200 5) 20).2)
     = 5%nat.
Proof.
  destruct (generateThumbnails_decode_and_draw_errors (brokenDecoder 40) 20)
    as (Hdecode & _).
  destruct (generateThumbnails_decode_and_draw_errors
              (taintedDecoder 100 50 200 5) 20) as (_ & _ & Hdraw).
  split.
  - apply (Hdecode 40%N eq_refl). reflexivity.
  - apply (Hdraw 100%N 50%N 60%Q (fun _ => 200%N) 5%nat 200%N
             "The canvas has been tainted" eq_refl).
    + lia.
    + intros j Hj. cbn [taintedDecoder seek].
      rewrite decide_False by lia. split; reflexivity.
    + reflexivity.
    + reflexivity.
    + vm_compute. reflexivity.
Defined.






(** ** The clip range, continued *)


(** X9.  [handleTimeUpdate] keeps the preview inside the selected range:
    with [startTime <= endTime], after it the cursor lies in
    [[startTime, endTime]]; a cursor already there is left alone; a cursor
    before the range or past it is put at [startTime], and playback is
    restarted exactly when it was past the end.  The range itself is never
    changed. *)
Theorem handleTimeUpdate_keeps_cursor_in_range (a : App) (currentTime : Q) :
  videoRef a = Some currentTime ->
  (startTime a <= endTime a)%Q ->
  let a' := (handleTimeUpdate a).1 in
  let played := (handleTimeUpdate a).2 in
  (exists c, videoRef a' = Some c /\ (startTime a <= c <= endTime a)%Q)
  /\ ((startTime a <= currentTime <= endTime a)%Q -> a' = a /\ played = false)
  /\ (~ (startTime a <= currentTime <= endTime a)%Q ->
      videoRef a' = Some (startTime a))
  /\ (played = true <-> (endTime a < currentTime)%Q)
  /\ startTime a' = startTime a /\ endTime a' = endTime a.
Proof.
  intros Hv Hse a' played. subst a' played. unfold handleTimeUpdate.
  rewrite Hv.
  destruct (Qltb currentTime (startTime a)) eqn:Hlo;
    [apply Qltb_lt in Hlo | apply Qltb_ge in Hlo].
  - cbn. split; [exists (startTime a); split; [reflexivity|lra]|].
    split; [intros [H _]; lra|]. split; [reflexivity|].
    split; [|split; reflexivity]. split; [discriminate | intros; lra].
  - destruct (Qltb (endTime a) currentTime) eqn:Hhi;
      [apply Qltb_lt in Hhi | apply Qltb_ge in Hhi]; cbn.
    + split; [exists (startTime a); split; [reflexivity|lra]|].
      split; [intros [_ H]; lra|]. split; [reflexivity|].
      split; [|split; reflexivity]. split; [intros _; exact Hhi | reflexivity].
    + split; [exists currentTime; split; [exact Hv|lra]|].
      split; [intros _; split; reflexivity|].
      split; [intros H; exfalso; apply H; lra|].
      split; [|split; reflexivity]. split; [discriminate | intros; lra].
Qed.

Lemma handleTimeUpdate_keeps_cursor_in_range_witness :
  let a := setCurrentTime 25 (mounted 100 10 20 None) in
  videoRef (handleTimeUpdate a).1 = Some 10%Q
  /\ (handleTimeUpdate a).2 = true.
Proof.
  intros a.
  destruct (handleTimeUpdate_keeps_cursor_in_range a 25 eq_refl)
    as (_ & _ & Hout & Hplay & _).
  - vm_compute. discriminate.
  - split.
    + apply Hout. intros [_ H]. vm_compute in H. congruence.
    + apply Hplay. reflexivity.
Defined.





(** X11.  A dragged handle follows the pointer.  With [t] the time the code
    computes from the position of the pointer, on a timeline of positive
    width: the start handle lands on [t] when [0 <= t] and [t] is at most
    the computed [endTime - 1], the end handle lands on [t] when [t] is at
    least the computed [startTime + 1] and at most the duration; the other
    edge does not move, and the cursor of a mounted preview goes to [t] as
    well.  This holds in every arithmetic, that of doubles included. *)
Theorem drag_follows_pointer (ar : Arithmetic) (clientX : Q) (a : App)
    rect info :
  timelineRef a = Some rect -> videoInfo a = Some info ->
  (0 < rect_width rect)%Q ->
  let t := mul ar (div ar (Qmax 0 (Qmin (sub ar clientX (rect_left rect))
                                        (rect_width rect)))
                      (rect_width rect)) (duration info) in
  let a' := handleMouseMoveIn ar clientX a in
  (isDragging a = Some HStart ->
     (0 <= t)%Q -> (t <= sub ar (endTime a) 1)%Q ->
     (startTime a' == t)%Q /\ endTime a' = endTime a
     /\ (forall cur, videoRef a = Some cur ->
           exists c, videoRef a' = Some c /\ (c == t)%Q))
  /\ (isDragging a = Some HEnd ->
     (add ar (startTime a) 1 <= t)%Q -> (t <= duration info)%Q ->
     (endTime a' == t)%Q /\ startTime a' = startTime a
     /\ (forall cur, videoRef a = Some cur ->
           exists c, videoRef a' = Some c /\ (c == t)%Q)).
Proof.
  intros Hr Hi _ t a'. split.
  - intros Hd H0 Hfits.
    destruct (handleMouseMoveIn_start ar clientX a rect info Hd Hr Hi)
      as (Hs & He & Hc).
    fold t a' in Hs, He, Hc.
    assert (Qmax 0 (Qmin t (sub ar (endTime a) 1)) == t)%Q as Hland.
    { rewrite Q.min_l by exact Hfits. apply Q.max_r. exact H0. }
    split; [rewrite Hs; exact Hland|]. split; [exact He|].
    intros cur Hv. rewrite Hv in Hc. eexists. split; [exact Hc | exact Hland].
  - intros Hd Hfits HD.
    destruct (handleMouseMoveIn_end ar clientX a rect info Hd Hr Hi)
      as (He & Hs & Hc).
    fold t a' in Hs, He, Hc.
    assert (Qmin (duration info) (Qmax t (add ar (startTime a) 1)) == t)%Q
      as Hland.
    { rewrite Q.max_l by exact Hfits. apply Q.min_r. exact HD. }
    split; [rewrite He; exact Hland|]. split; [exact Hs|].
    intros cur Hv. rewrite Hv in Hc. eexists. split; [exact Hc | exact Hland].
Qed.

(** In the arithmetic of doubles, a drag of the start handle to pixel 7 of
    100 on a 100-second video: the time computed for the pointer is
    7.000000000000001, and that is where the handle lands. *)
Lemma drag_follows_pointer_witness :
  let a' := handleMouseMoveIn binary64 7 (mounted 100 10 60 (Some HStart)) in
  (startTime a' == 7 + (1 # 2 ^ 50))%Q /\ endTime a' = 60%Q.
Proof.
  intros a'.
  destruct (drag_follows_pointer binary64 7 (mounted 100 10 60 (Some HStart))
              (mkRect 0 100) (mkVideoInfo "t" 100 []) eq_refl eq_refl)
    as [Hstart _]; [reflexivity|].
  destruct Hstart as (Hland & Hend & _).
  - reflexivity.
  - vm_compute. discriminate.
  - vm_compute. discriminate.
  - split; [|exact Hend].
    eapply Qeq_trans; [exact Hland | vm_compute; reflexivity].
Defined.







(** ** The time labels *)

Lemma Qfloor_unique (x : Q) (z : Z) :
  (inject_Z z <= x < inject_Z (z + 1))%Q -> Qfloor x = z.
Proof.
  intros [Hlo Hhi].
  pose proof (Qround.Qfloor_le x) as Hfl.
  pose proof (Qround.Qlt_floor x) as Hfu.
  assert (z < Qfloor x + 1)%Z
    by (rewrite Zlt_Qlt; eapply Qle_lt_trans; [exact Hlo | exact Hfu]).
  assert (Qfloor x < z + 1)%Z
    by (rewrite Zlt_Qlt; eapply Qle_lt_trans; [exact Hfl | exact Hhi]).
  lia.
Qed.

(** The minutes and the seconds of a time that is not negative. *)
Lemma formatTime_parts (seconds : Q) :
  (0 <= seconds)%Q ->
  Qfloor (seconds / 60) = (Qfloor seconds / 60)%Z
  /\ Qfloor (jsRemainder seconds 60) = (Qfloor seconds mod 60)%Z.
Proof.
  intros Hpos.
  pose proof (Qround.Qfloor_le seconds) as Hfl.
  pose proof (Qround.Qlt_floor seconds) as Hfu.
  pose proof (Z.div_mod (Qfloor seconds) 60 ltac:(lia)) as Hdm.
  pose proof (Z.mod_pos_bound (Qfloor seconds) 60 ltac:(lia)) as Hmod.
  set (S := Qfloor seconds) in *. set (m := (S / 60)%Z) in *.
  set (s := (S mod 60)%Z) in *.
  assert (inject_Z S == 60 * inject_Z m + inject_Z s)%Q as HS.
  { rewrite Hdm, inject_Z_plus, inject_Z_mult. reflexivity. }
  assert (0 <= inject_Z s /\ inject_Z s + 1 <= 60)%Q as [Hs0 Hs1].
  { split.
    - rewrite <- (Zle_Qle 0). lia.
    - change 60%Q with (inject_Z 60). change 1%Q with (inject_Z 1).
      rewrite <- inject_Z_plus, <- Zle_Qle. lia. }
  rewrite inject_Z_plus in Hfu. change (inject_Z 1) with 1%Q in Hfu.
  assert (Qfloor (seconds / 60) = m) as Hmins.
  { apply Qfloor_unique. rewrite inject_Z_plus.
    change (inject_Z 1) with 1%Q. split.
    - apply Qle_shift_div_l; [reflexivity|]. lra.
    - apply Qlt_shift_div_r; [reflexivity|]. lra. }
  split; [exact Hmins|].
  unfold jsRemainder, jsTrunc.
  assert (Qle_bool 0 (seconds / 60) = true) as ->.
  { apply Qle_bool_iff. apply Qle_shift_div_l; [reflexivity|]. lra. }
  rewrite Hmins. apply Qfloor_unique. rewrite inject_Z_plus.
  change (inject_Z 1) with 1%Q. split; lra.
Qed.

(** The two-character field of the seconds, checked on each of 0..59: it
    has two characters and reads back as the number. *)
Lemma seconds_field (s : Z) :
  (0 <= s < 60)%Z ->
  String.length (padStart 2 "0" (pretty s)) = 2%nat
  /\ digitsValue (padStart 2 "0" (pretty s)) = s.
Proof.
  intros Hs.
  assert (forallb (fun n : nat =>
             (String.length (padStart 2 "0" (pretty (Z.of_nat n))) =? 2)%nat
             && (digitsValue (padStart 2 "0" (pretty (Z.of_nat n)))
                 =? Z.of_nat n)%Z)
            (seq 0 60) = true) as Hall by (vm_compute; reflexivity).
  rewrite forallb_forall in Hall.
  assert (In (Z.to_nat s) (seq 0 60)) as Hin by (apply in_seq; lia).
  specialize (Hall (Z.to_nat s) Hin). rewrite Z2Nat.id in Hall by lia.
  apply andb_prop in Hall as [Hlen Hval].
  split; [apply Nat.eqb_eq, Hlen | apply Z.eqb_eq, Hval].
Qed.

Lemma length_append (s t : string) :
  String.length (s +:+ t) = (String.length s + String.length t)%nat.
Proof.
  induction s as [|c s IH]; [reflexivity|].
  change (S (String.length (s +:+ t))
          = S (String.length s + String.length t)). rewrite IH. reflexivity.
Qed.

Lemma append_inj_same_length (s1 s2 t1 t2 : string) :
  String.length t1 = String.length t2 ->
  (s1 +:+ t1 = s2 +:+ t2)%string -> s1 = s2 /\ t1 = t2.
Proof.
  intros Hlen. revert s2.
  induction s1 as [|c s1 IH]; intros [|c' s2] Heq.
  - split; [reflexivity | exact Heq].
  - exfalso. change (t1 = String c' (s2 +:+ t2))%string in Heq. subst t1.
    cbn [String.length] in Hlen. rewrite length_append in Hlen. lia.
  - exfalso. change (String c (s1 +:+ t1) = t2)%string in Heq. subst t2.
    cbn [String.length] in Hlen. rewrite length_append in Hlen. lia.
  - change (String c (s1 +:+ t1) = String c' (s2 +:+ t2))%string in Heq.
    injection Heq as -> Heq. destruct (IH s2 Heq) as [-> ->].
    split; reflexivity.
Qed.

(** X13.  The time labels show whole seconds.  For a time from 0 to
    [labelLimit] seconds, [formatTime] writes the whole minutes, a colon, and
    the remaining whole seconds (0 to 59) on exactly two characters; the
    seconds read back from the label, plus 60 times the minutes, are the
    whole seconds of the time.  Hence two such times have the same label
    exactly when they have the same whole number of seconds. *)
Theorem formatTime_whole_seconds (x y : Q) :
  (0 <= x <= labelLimit)%Q -> (0 <= y <= labelLimit)%Q ->
  (exists m s : Z,
     formatTime x = (pretty m +:+ ":" +:+ padStart 2 "0" (pretty s))%string
     /\ (0 <= m)%Z /\ (0 <= s < 60)%Z
     /\ String.length (padStart 2 "0" (pretty s)) = 2%nat
     /\ (60 * m + digitsValue (padStart 2 "0" (pretty s)))%Z = Qfloor x)
  /\ (formatTime x = formatTime y <-> Qfloor x = Qfloor y).
Proof.
  intros [Hx _] [Hy _].
  destruct (formatTime_parts x Hx) as [Hmx Hsx].
  destruct (formatTime_parts y Hy) as [Hmy Hsy].
  assert (0 <= Qfloor x)%Z as Hfx.
  { change 0%Z with (Qfloor 0). apply Qround.Qfloor_resp_le, Hx. }
  assert (0 <= Qfloor y)%Z as Hfy.
  { change 0%Z with (Qfloor 0). apply Qround.Qfloor_resp_le, Hy. }
  pose proof (Z.mod_pos_bound (Qfloor x) 60 ltac:(lia)) as Hbx.
  pose proof (Z.mod_pos_bound (Qfloor y) 60 ltac:(lia)) as Hby.
  destruct (seconds_field _ Hbx) as [Hlx Hvx].
  destruct (seconds_field _ Hby) as [Hly Hvy].
  split.
  - exists (Qfloor x / 60)%Z, (Qfloor x mod 60)%Z.
    unfold formatTime. cbv zeta. rewrite Hmx, Hsx.
    split; [reflexivity|]. split; [apply Z.div_pos; lia|].
    split; [exact Hbx|]. split; [exact Hlx|].
    rewrite Hvx. symmetry. apply Z.div_mod. lia.
  - unfold formatTime. cbv zeta. rewrite Hmx, Hsx, Hmy, Hsy. split.
    + intros Heq.
      apply append_inj_same_length in Heq as [Hm Hs].
      2:{ change (S (String.length
                      (padStart 2 "0" (pretty (Qfloor x mod 60)%Z)))
                  = S (String.length
                         (padStart 2 "0" (pretty (Qfloor y mod 60)%Z)))).
          rewrite Hlx, Hly. reflexivity. }
      apply (String.app_inj ":") in Hs. apply pretty.pretty_Z_inj in Hm.
      assert (Qfloor x mod 60 = Qfloor y mod 60)%Z as Hs'
        by (rewrite <- Hvx, <- Hvy, Hs; reflexivity).
      rewrite (Z.div_mod (Qfloor x) 60), (Z.div_mod (Qfloor y) 60) by lia.
      rewrite Hm, Hs'. reflexivity.
    + intros ->. reflexivity.
Qed.

Lemma formatTime_whole_seconds_witness :
  formatTime (151 # 2) = "1:15" /\ formatTime (151 # 2) = formatTime 75.
Proof.
  destruct (formatTime_whole_seconds (151 # 2) 75) as [_ Hsame].
  - split; vm_compute; discriminate.
  - split; vm_compute; discriminate.
  - split; [vm_compute; reflexivity | apply Hsame; reflexivity].
Defined.

(** ** The handlers of the component *)

(** Case analysis on everything a handler branches on. *)
Ltac handler_cases :=
  repeat (cbn;
          match goal with
          | |- context [match ?x with _ => _ end] =>
              lazymatch x with
              | context [match _ with _ => _ end] => fail
              | _ => destruct x eqn:?
              end
          end).

Ltac unfold_handler :=
  unfold handleGetFormats, handleUseStoredVideo, handleDeleteVideo,
    try_catch_finally, fetchAndStore, useCached, fetch_ok, bind, update, emit,
    getVideoM, getAllVideosM, storeVideoM, deleteVideoM, generateThumbnailsM,
    ret, throw, getVideo, getAllVideos;
  cbn [app storage trace fst snd].

Lemma handleGetFormats_app_url (env : Environment) (w : World) :
  app_url (app (handleGetFormats env w).2) = app_url (app w).
Proof. unfold_handler. handler_cases; reflexivity. Qed.

(** X16.  [handleGetFormats] always comes back with [loading] false, and it
    never touches the url, the clip range, the disclaimer or the drag: in
    particular a submit does not fit the clip range to the new video. *)
Theorem handleGetFormats_leaves_selection (env : Environment) (w : World) :
  loading (app (handleGetFormats env w).2) = false
  /\ untouched (app w) (app (handleGetFormats env w).2).
Proof.
  unfold untouched. unfold_handler. handler_cases; cbn; repeat split.
Qed.

Lemma handleGetFormats_hit_eq (env : Environment) (w : World)
    (existingVideo : StoredVideo) :
  videos (storage w) !! app_url (app w) = Some existingVideo ->
  (handleGetFormats env w).2 =
    mkWorld (servedFromCache existingVideo (app w))
            (ensureOpen (storage w)) (trace w).
Proof.
  intros Hhit. unfold_handler.
  cbn [app_url setLoading setError setVideoInfo setPreviewUrl setThumbnails
       setSelectedFormat].
  rewrite videos_ensureOpen, Hhit. reflexivity.
Qed.

(** X17.  A submit of a url that is in the cache is served from the cache
    alone: no request is sent and nothing is written; the thumbnails, the
    title and the duration are those of the record, the preview plays the
    stored blob, no format is offered or selected, and no error is shown. *)
Theorem handleGetFormats_cache_hit (env : Environment) (w : World)
    (existingVideo : StoredVideo) :
  videos (storage w) !! app_url (app w) = Some existingVideo ->
  let w' := (handleGetFormats env w).2 in
  trace w' = trace w
  /\ videos (storage w') = videos (storage w)
  /\ thumbnails (app w') = default [] (stored_thumbnails existingVideo)
  /\ videoInfo (app w') =
       Some (mkVideoInfo (stored_title existingVideo)
                         (stored_duration existingVideo) [])
  /\ previewUrl (app w') = createObjectURL (blob existingVideo)
  /\ selectedFormat (app w') = ""
  /\ error (app w') = "" /\ loading (app w') = false.
Proof.
  intros Hhit w'. subst w'.
  rewrite (handleGetFormats_hit_eq env w existingVideo Hhit).
  cbn [app storage trace]. rewrite videos_ensureOpen. repeat split.
Qed.

Lemma handleGetFormats_cache_hit_witness :
  let w' := (handleGetFormats (scenarioEnv (brokenDecoder 40))
               (cachedWorld "")).2 in
  trace w' = [] /\ previewUrl (app w') = "blob:bytes".
Proof.
  destruct (handleGetFormats_cache_hit (scenarioEnv (brokenDecoder 40))
              (cachedWorld "")
              (mkStoredVideo "u" "Title" "bytes" 1000 60 (Some [])))
    as (Htrace & _ & _ & _ & Hpreview & _).
  - reflexivity.
  - split; [exact Htrace | exact Hpreview].
Defined.

(** X18.  A fetch makes the next submit of the same url a cache hit.  After
    a submit that fetched and stored the video, a second submit -- whatever
    the back end would answer by then -- sends no request and writes
    nothing, and shows the stored thumbnails and blob. *)
Theorem resubmit_is_served_from_cache (env env' : Environment) (w : World)
    data f videoBlob newThumbnails :
  let u := app_url (app w) in
  videos (storage w) !! u = None ->
  formatsEndpoint env u = Response true data ->
  find has_audio (formats data) = Some f ->
  downloadEndpoint env u (format_id f) = Response true videoBlob ->
  (generateThumbnails (decoder env videoBlob) defaultThumbnails).1
    = Resolved newThumbnails ->
  let w1 := (handleGetFormats env w).2 in
  let w2 := (handleGetFormats env' w1).2 in
  trace w2 = trace w1
  /\ videos (storage w2) = videos (storage w1)
  /\ thumbnails (app w2) = newThumbnails
  /\ previewUrl (app w2) = createObjectURL videoBlob
  /\ videoInfo (app w2) = Some (mkVideoInfo (title data) (duration data) []).
Proof.
  intros u Hmiss Hf Hfind Hd Hg w1 w2.
  assert (videos (storage w1) !! app_url (app w1)
          = Some (mkStoredVideo u (title data) videoBlob (dateNow env)
                    (duration data) (Some newThumbnails))) as Hstored.
  { pose proof (handleGetFormats_app_url env w) as Hurl.
    fold w1 in Hurl. rewrite Hurl. fold u. subst w1.
    rewrite (handleGetFormats_miss env w Hmiss). fold u.
    pose proof (fetchAndStore_cases env u (submitted w)) as Hcases.
    destruct (fetchAndStore env u (submitted w)) as [[[]|e] w'];
      cbn [app storage trace submitted] in *.
    - destruct Hcases as (data0 & f0 & blob0 & thumbs0 & Hf0 & Hfind0 & Hd0
                          & Hg0 & _ & Hvideos).
      assert (data0 = data) as -> by congruence.
      assert (f0 = f) as -> by congruence.
      assert (blob0 = videoBlob) as -> by congruence.
      assert (thumbs0 = newThumbnails) as -> by congruence.
      rewrite Hvideos. apply lookup_insert_eq.
    - exfalso. destruct Hcases as [_ [[_ Hno]|(data0 & f0 & Hf0 & Hfind0 & _
                                              & Hbad)]].
      + rewrite Hf in Hno. destruct Hno as [Hno _]. congruence.
      + assert (data0 = data) as -> by congruence.
        assert (f0 = f) as -> by congruence.
        rewrite Hd, Hg in Hbad. discriminate. }
  subst w2. rewrite (handleGetFormats_hit_eq env' w1 _ Hstored).
  cbn [app storage trace]. rewrite videos_ensureOpen. repeat split.
Qed.

Lemma resubmit_is_served_from_cache_witness :
  let w1 := (handleGetFormats (scenarioEnv (steadyDecoder 100 50 200))
               scenarioWorld).2 in
  let w2 := (handleGetFormats (scenarioEnv (brokenDecoder 40)) w1).2 in
  trace w2 = trace w1 /\ previewUrl (app w2) = "blob:bytes".
Proof.
  destruct (resubmit_is_served_from_cache
              (scenarioEnv (steadyDecoder 100 50 200))
              (scenarioEnv (brokenDecoder 40)) scenarioWorld
              (mkVideoInfo "Title" 60 scenarioFormats)
              (mkVideoFormat "b" "720p" "mp4" "2" "1280x720" true "https://b")
              "bytes"
              (pictures (generateThumbnails (steadyDecoder 100 50 200)
                           defaultThumbnails).1)
              eq_refl eq_refl eq_refl eq_refl)
    as (Htrace & _ & _ & Hpreview & _).
  - vm_compute. reflexivity.
  - split; [exact Htrace | exact Hpreview].
Defined.

(** The first format with audio is the head of the formats with audio. *)
Lemma head_filter_find {A} (p : A -> bool) (l : list A) :
  head (List.filter p l) = find p l.
Proof.
  induction l as [|x l IH]; cbn; [reflexivity|].
  destruct (p x); [reflexivity | exact IH].
Qed.

Lemma handleUseStoredVideo_miss (env : Environment) (videoUrl : string)
    (w : World) data :
  videos (storage w) !! videoUrl = None ->
  formatsEndpoint env videoUrl = Response true data ->
  let a' := app (handleUseStoredVideo env videoUrl w).2 in
  videoInfo a' = Some (mkVideoInfo (title data) (duration data)
                                   (List.filter has_audio (formats data)))
  /\ selectedFormat a' =
       match head (List.filter has_audio (formats data)) with
       | Some first => format_id first
       | None => ""
       end
  /\ error a' = "".
Proof.
  intros Hmiss Hf a'. subst a'. unfold_handler.
  rewrite videos_ensureOpen, Hmiss, Hf. cbn.
  destruct (List.filter has_audio (formats data)); cbn; repeat split.
Qed.

(** X19.  [handleUseStoredVideo] only reads: it never downloads a preview
    and never writes to the store, and it leaves [loading] false and the url
    set to the video asked for.  For a video that is not in the store and
    whose formats the back end lists, it offers exactly the listed formats
    that have audio, in their order, and selects the first of them -- the
    format [handleGetFormats] would download as the preview -- or none,
    without any error, when no format has audio. *)
Theorem handleUseStoredVideo_only_reads (env : Environment)
    (videoUrl : string) (w : World) :
  let w' := (handleUseStoredVideo env videoUrl w).2 in
  puts (trace w') = puts (trace w)
  /\ downloads (trace w') = downloads (trace w)
  /\ videos (storage w') = videos (storage w)
  /\ app_url (app w') = videoUrl /\ loading (app w') = false
  /\ (forall data,
        videos (storage w) !! videoUrl = None ->
        formatsEndpoint env videoUrl = Response true data ->
        (exists offered,
           videoInfo (app w')
             = Some (mkVideoInfo (title data) (duration data) offered)
           /\ offered = List.filter has_audio (formats data)
           /\ Forall (fun g => has_audio g = true) offered)
        /\ selectedFormat (app w') =
             match find has_audio (formats data) with
             | Some f => format_id f
             | None => ""
             end
        /\ error (app w') = "").
Proof.
  intros w'. subst w'.
  split; [|split; [|split; [|split; [|split]]]].
  - unfold_handler. handler_cases; cbn;
      rewrite ?puts_app, ?app_nil_r; reflexivity.
  - unfold_handler. handler_cases; cbn;
      rewrite ?downloads_app, ?app_nil_r; reflexivity.
  - unfold_handler. handler_cases; cbn; rewrite ?videos_ensureOpen;
      reflexivity.
  - unfold_handler. handler_cases; reflexivity.
  - unfold_handler. handler_cases; reflexivity.
  - intros data Hmiss Hf.
    destruct (handleUseStoredVideo_miss env videoUrl w data Hmiss Hf)
      as (Hinfo & Hsel & Herr).
    split; [|split; [|exact Herr]].
    + eexists. split; [exact Hinfo|]. split; [reflexivity|].
      apply Forall_forall. intros g Hg. apply list_elem_of_In in Hg.
      apply filter_In in Hg. apply Hg.
    + rewrite Hsel, head_filter_find. reflexivity.
Qed.

Lemma handleUseStoredVideo_only_reads_witness :
  let w' := (handleUseStoredVideo (scenarioEnv (brokenDecoder 40)) "u"
               scenarioWorld).2 in
  selectedFormat (app w') = "b" /\ error (app w') = "".
Proof.
  destruct (handleUseStoredVideo_only_reads (scenarioEnv (brokenDecoder 40))
              "u" scenarioWorld) as (_ & _ & _ & _ & _ & Hmiss).
  destruct (Hmiss (mkVideoInfo "Title" 60 scenarioFormats) eq_refl eq_refl)
    as (_ & Hsel & Herr).
  split; [exact Hsel | exact Herr].
Defined.

Lemma handleDownload_guard processClip (w : World) :
  selectedFormat (app w) = "" \/ acceptedDisclaimer (app w) = false
  \/ videoInfo (app w) = None ->
  handleDownload processClip w = (w, []).
Proof.
  intros Hguard. unfold handleDownload. cbv zeta.
  destruct Hguard as [Hsel|[Hacc|Hinfo]].
  - rewrite Hsel. reflexivity.
  - rewrite Hacc, orb_true_r. reflexivity.
  - rewrite Hinfo, orb_true_r. reflexivity.
Qed.

Lemma handleDownload_open processClip (w : World) :
  selectedFormat (app w) <> "" -> acceptedDisclaimer (app w) = true ->
  videoInfo (app w) <> None ->
  handleDownload processClip w =
    let a := app w in
    let a1 := setError "" (setLoading true a) in
    let s := ensureOpen (storage w) in
    match videos (storage w) !! app_url a with
    | None =>
        (mkWorld (setLoading false (setError "Video not found in storage" a1))
                 s (trace w), [])
    | Some existingVideo =>
        match handleCreateClip processClip a existingVideo with
        | (Returned _, effects) =>
            (mkWorld (setLoading false a1) s (trace w), effects)
        | (Thrown message, effects) =>
            (mkWorld (setLoading false (setError message a1)) s (trace w),
             effects)
        end
    end.
Proof.
  intros Hsel Hacc Hinfo. unfold handleDownload. cbv zeta.
  rewrite bool_decide_eq_false_2 by exact Hsel. rewrite Hacc.
  destruct (videoInfo (app w)); [|congruence].
  cbn [orb negb]. unfold getVideo. rewrite videos_ensureOpen. reflexivity.
Qed.

(** X20.  [handleDownload], case by case.  It does nothing at all unless a
    format is selected, the disclaimer is accepted and a video is shown.
    Past that gate: when the video is not in the cache it sends nothing and
    shows ['Video not found in storage']; when it is, it posts the stored
    blob with the current range to [/process-clip], once, and saves the
    answer under [<title>_clip.mp4] when the answer is ok, and otherwise
    saves nothing and shows an error that begins with
    ['Failed to create clip: '].  It always ends with [loading] false. *)
Theorem handleDownload_cases processClip (w : World) :
  let a := app w in
  let w' := (handleDownload processClip w).1 in
  let effects := (handleDownload processClip w).2 in
  (selectedFormat a = "" \/ acceptedDisclaimer a = false \/ videoInfo a = None
   -> w' = w /\ effects = [])
  /\ (selectedFormat a <> "" -> acceptedDisclaimer a = true ->
      videoInfo a <> None ->
      loading (app w') = false
      /\ (videos (storage w) !! app_url a = None ->
          effects = [] /\ error (app w') = "Video not found in storage")
      /\ (forall video,
            videos (storage w) !! app_url a = Some video ->
            let request :=
              PostProcessClip (blob video) (startTime a) (endTime a) in
            (forall clip,
               processClip (blob video) (startTime a) (endTime a)
                 = Response true clip ->
               effects = [request;
                          SaveFile (stored_title video ++ "_clip.mp4")%string
                                   clip]
               /\ error (app w') = "")
            /\ ((forall clip,
                   processClip (blob video) (startTime a) (endTime a)
                     <> Response true clip) ->
                effects = [request]
                /\ exists reason,
                     error (app w')
                     = ("Failed to create clip: " ++ reason)%string))).
Proof.
  intros a w' effects. subst a w' effects. split.
  - intros Hguard. rewrite (handleDownload_guard processClip w Hguard).
    split; reflexivity.
  - intros Hsel Hacc Hinfo.
    rewrite (handleDownload_open processClip w Hsel Hacc Hinfo). cbv zeta.
    unfold handleCreateClip.
    destruct (videos (storage w) !! app_url (app w)) as [video|];
      [|cbn; split; [reflexivity|]; split;
        [intros _; split; reflexivity | intros video [=]]].
    destruct (processClip (blob video) (startTime (app w)) (endTime (app w)))
      as [message|[|] clip] eqn:Hclip; cbn.
    + split; [reflexivity|]. split; [intros [=]|].
      intros v [= <-]. split.
      * intros clip Hc. rewrite Hclip in Hc. discriminate.
      * intros _. split; [reflexivity | exists message; reflexivity].
    + split; [reflexivity|]. split; [intros [=]|].
      intros v [= <-]. split.
      * intros clip' Hc. rewrite Hclip in Hc. injection Hc as <-.
        split; reflexivity.
      * intros Hnot. destruct (Hnot clip Hclip).
    + split; [reflexivity|]. split; [intros [=]|].
      intros v [= <-]. split.
      * intros clip' Hc. rewrite Hclip in Hc. discriminate.
      * intros _. split; [reflexivity|].
        exists "Failed to process clip". reflexivity.
Qed.

Lemma handleDownload_cases_witness :
  (handleDownload clipService (cachedWorld "b")).2
  = [PostProcessClip "bytes" 10 20; SaveFile "Title_clip.mp4" "clip of bytes"].
Proof.
  destruct (handleDownload_cases clipService (cachedWorld "b"))
    as [_ Hopen].
  destruct Hopen as (_ & _ & Hstored); [discriminate | reflexivity
                                       | discriminate |].
  destruct (Hstored (mkStoredVideo "u" "Title" "bytes" 1000 60 (Some []))
              eq_refl) as [Hok _].
  destruct (Hok "clip of bytes" eq_refl) as [Heffects _].
  exact Heffects.
Defined.

(** X21.  [handleDownload] only cuts the cached preview: it never writes to
    the store, sends no request of the fetch kind, and leaves the url, the
    range and the disclaimer alone; and which format is selected makes no
    difference to what is sent and saved, as long as one is selected. *)
Theorem handleDownload_ignores_format processClip (w : World)
    (format format' : string) :
  format <> "" -> format' <> "" ->
  (handleDownload processClip (withFormat format w)).2
    = (handleDownload processClip (withFormat format' w)).2
  /\ videos (storage (handleDownload processClip w).1) = videos (storage w)
  /\ trace (handleDownload processClip w).1 = trace w
  /\ untouched (app w) (app (handleDownload processClip w).1).
Proof.
  intros Hf Hf'. split; [|split; [|split]].
  - destruct (acceptedDisclaimer (app w)) eqn:Hacc;
      [|rewrite !handleDownload_guard by (right; left; exact Hacc);
        reflexivity].
    destruct (videoInfo (app w)) as [info|] eqn:Hinfo;
      [|rewrite !handleDownload_guard by (right; right; exact Hinfo);
        reflexivity].
    rewrite !handleDownload_open
      by (cbn; first [assumption | rewrite Hinfo; discriminate]).
    cbn. unfold handleCreateClip. cbn.
    destruct (videos (storage w) !! app_url (app w)); [|reflexivity].
    destruct (processClip _ _ _) as [|[|]]; reflexivity.
  - unfold handleDownload, handleCreateClip, getVideo. handler_cases; cbn;
      rewrite ?videos_ensureOpen; reflexivity.
  - unfold handleDownload, handleCreateClip, getVideo. handler_cases;
      reflexivity.
  - unfold untouched, handleDownload, handleCreateClip, getVideo.
    handler_cases; cbn; repeat split.
Qed.

Lemma handleDownload_ignores_format_witness :
  (handleDownload clipService (withFormat "a" (cachedWorld "b"))).2
  = (handleDownload clipService (withFormat "b" (cachedWorld "b"))).2.
Proof.
  apply (handleDownload_ignores_format clipService (cachedWorld "b") "a" "b");
    discriminate.
Defined.

(** X22.  A video that came from the cache cannot be clipped right away.
    After a submit or a ["Use"] that found the video in the store, no format
    is selected, so [handleDownload] does nothing -- no request, no file, no
    message -- even with the disclaimer accepted. *)
Theorem no_clip_after_cache_hit (env : Environment) processClip
    (videoUrl : string) (w : World) (existingVideo : StoredVideo) :
  (videos (storage w) !! app_url (app w) = Some existingVideo ->
   handleDownload processClip (handleGetFormats env w).2
   = ((handleGetFormats env w).2, []))
  /\ (videos (storage w) !! videoUrl = Some existingVideo ->
      handleDownload processClip (handleUseStoredVideo env videoUrl w).2
      = ((handleUseStoredVideo env videoUrl w).2, [])).
Proof.
  split; intros Hhit; apply handleDownload_guard; left.
  - rewrite (handleGetFormats_hit_eq env w existingVideo Hhit). reflexivity.
  - unfold_handler. rewrite videos_ensureOpen, Hhit. reflexivity.
Qed.

Lemma no_clip_after_cache_hit_witness :
  (handleDownload clipService
     (handleGetFormats (scenarioEnv (brokenDecoder 40)) (cachedWorld "b")).2).2
  = [].
Proof.
  destruct (no_clip_after_cache_hit (scenarioEnv (brokenDecoder 40))
              clipService "u" (cachedWorld "b")
              (mkStoredVideo "u" "Title" "bytes" 1000 60 (Some [])))
    as [Hsubmit _].
  rewrite (Hsubmit eq_refl). reflexivity.
Defined.

Lemma handleDeleteVideo_eq (videoUrl : string) (w : World) :
  (handleDeleteVideo videoUrl w).2 =
    let s := ensureOpen (deleteVideo videoUrl (storage w)) in
    let a := setStoredVideos (inKeyOrder (videos s)) (app w) in
    mkWorld (if decide (app_url (app w) = videoUrl)
             then setVideoInfo None (setThumbnails [] a) else a)
            s (trace w).
Proof.
  unfold_handler. destruct (decide (app_url (app w) = videoUrl)); reflexivity.
Qed.

Lemma handleDeleteVideo_storedVideos (videoUrl : string) (w : World) :
  storedVideos (app (handleDeleteVideo videoUrl w).2)
  = inKeyOrder (delete videoUrl (videos (storage w))).
Proof.
  rewrite handleDeleteVideo_eq. cbn [app].
  rewrite videos_ensureOpen, videos_deleteVideo.
  destruct (decide (app_url (app w) = videoUrl)); reflexivity.
Qed.

(** X23.  [handleDeleteVideo] forgets the video.  After it the store has no
    record under that url, the list of stored videos is the content of the
    store -- without that video and with every other record it had -- and no
    request has been sent.  When the deleted video is the one on screen, its
    thumbnails and its timeline go with it, so that clicks and drags on the
    timeline do nothing any more; otherwise the screen is left as it was. *)
Theorem handleDeleteVideo_forgets (videoUrl : string) (w : World) :
  let w' := (handleDeleteVideo videoUrl w).2 in
  (getVideo videoUrl (storage w')).1 = None
  /\ storedVideos (app w') = (getAllVideos (storage w')).1
  /\ trace w' = trace w
  /\ (keyed (videos (storage w)) ->
      forall v, v ∈ storedVideos (app w') <->
                videos (storage w) !! url v = Some v /\ url v <> videoUrl)
  /\ (app_url (app w) = videoUrl ->
      videoInfo (app w') = None /\ thumbnails (app w') = []
      /\ forall clientX,
           handleTimelineClick clientX (app w') = app w'
           /\ handleMouseMove clientX (app w') = app w')
  /\ (app_url (app w) <> videoUrl ->
      videoInfo (app w') = videoInfo (app w)
      /\ thumbnails (app w') = thumbnails (app w)).
Proof.
  intros w'. subst w'. rewrite handleDeleteVideo_eq. cbv zeta.
  split; [|split; [|split; [|split; [|split]]]].
  - rewrite getVideo_lookup. cbn [storage].
    rewrite videos_ensureOpen, videos_deleteVideo. apply lookup_delete_eq.
  - rewrite getAllVideos_values. cbn [storage].
    destruct (decide (app_url (app w) = videoUrl)); reflexivity.
  - reflexivity.
  - intros Hk v.
    rewrite <- handleDeleteVideo_eq, handleDeleteVideo_storedVideos.
    rewrite elem_of_inKeyOrder. split.
    + intros [k Hin]. apply lookup_delete_Some in Hin as [Hne Hin].
      rewrite (Hk _ _ Hin). split; [exact Hin | congruence].
    + intros [Hv Hne]. exists (url v).
      apply lookup_delete_Some. split; [congruence | exact Hv].
  - intros Hcur. rewrite decide_True by exact Hcur. cbn [app].
    split; [reflexivity|]. split; [reflexivity|].
    intros clientX.
    unfold handleTimelineClick, handleMouseMove, handleTimelineClickIn,
      handleMouseMoveIn. cbn.
    split; [destruct (timelineRef (app w)), (videoRef (app w))
           | destruct (isDragging (app w)), (timelineRef (app w))];
      reflexivity.
  - intros Hother. rewrite decide_False by exact Hother.
    split; reflexivity.
Qed.

Lemma handleDeleteVideo_forgets_witness :
  let w' := (handleDeleteVideo "u" (cachedWorld "b")).2 in
  videoInfo (app w') = None /\ storedVideos (app w') = [].
Proof.
  destruct (handleDeleteVideo_forgets "u" (cachedWorld "b"))
    as (_ & _ & _ & _ & Hcur & _).
  destruct (Hcur eq_refl) as (Hinfo & _).
  split; [exact Hinfo | reflexivity].
Defined.

(** X28.  What the screen shows after a submit that fetched the video: the
    formats listed by the back end, the thumbnails just generated, the
    preview of the downloaded blob, no error, and the stored videos as the
    store lists them after the write: the records it had under other urls
    and the new record, by ascending url.  The format selected is the first
    of the list, with or without audio -- not necessarily the format that
    was downloaded as the preview. *)
Theorem handleGetFormats_fetched_state (env : Environment) (w : World)
    data f videoBlob newThumbnails :
  let u := app_url (app w) in
  videos (storage w) !! u = None ->
  formatsEndpoint env u = Response true data ->
  find has_audio (formats data) = Some f ->
  downloadEndpoint env u (format_id f) = Response true videoBlob ->
  (generateThumbnails (decoder env videoBlob) defaultThumbnails).1
    = Resolved newThumbnails ->
  let a' := app (handleGetFormats env w).2 in
  let record := mkStoredVideo u (title data) videoBlob (dateNow env)
                  (duration data) (Some newThumbnails) in
  videoInfo a' = Some data
  /\ thumbnails a' = newThumbnails
  /\ previewUrl a' = createObjectURL videoBlob
  /\ error a' = ""
  /\ head (format_id <$> formats data) = Some (selectedFormat a')
  /\ storedVideos a' = (getAllVideos (handleGetFormats env w).2.(storage)).1
  /\ record ∈ storedVideos a'
  /\ (keyed (videos (storage w)) ->
      (forall v, v ∈ storedVideos a' <->
                 v = record
                 \/ (videos (storage w) !! url v = Some v /\ url v <> u))
      /\ length (storedVideos a') = S (size (videos (storage w)))
      /\ StronglySorted String.le (url <$> storedVideos a')).
Proof.
  intros u Hmiss Hf Hfind Hd Hg a' record.
  assert (storedVideos a' = inKeyOrder (<[u := record]> (videos (storage w)))
          /\ videos (storage (handleGetFormats env w).2)
             = <[u := record]> (videos (storage w))
          /\ videoInfo a' = Some data /\ thumbnails a' = newThumbnails
          /\ previewUrl a' = createObjectURL videoBlob /\ error a' = ""
          /\ head (format_id <$> formats data) = Some (selectedFormat a'))
    as (Hstored & Hstore & Hinfo & Hthumbs & Hprev & Herr & Hsel).
  { subst a' record. unfold_handler.
    cbn [app_url setLoading setError setVideoInfo setPreviewUrl setThumbnails
         setSelectedFormat].
    fold u. rewrite videos_ensureOpen, Hmiss, Hf. cbn. rewrite Hfind.
    destruct (formats data) as [|first others] eqn:Hfs;
      [discriminate Hfind|].
    cbn. rewrite Hd. cbn. rewrite Hg. cbn.
    rewrite !videos_ensureOpen, videos_storeVideo, videos_ensureOpen.
    repeat split. }
  assert (record ∈ storedVideos a') as Hin.
  { rewrite Hstored. apply elem_of_inKeyOrder. exists u.
    apply lookup_insert_eq. }
  split; [exact Hinfo|]. split; [exact Hthumbs|]. split; [exact Hprev|].
  split; [exact Herr|]. split; [exact Hsel|].
  split; [rewrite getAllVideos_values, Hstore; exact Hstored|].
  split; [exact Hin|].
  intros Hk.
  assert (keyed (<[u := record]> (videos (storage w)))) as Hk'.
  { intros k v. rewrite lookup_insert.
    case_decide; [intros [= <-]; subst k; reflexivity | apply Hk]. }
  rewrite Hstored. split; [|split].
  - intros v. rewrite elem_of_inKeyOrder. split.
    + intros [k Hv]. pose proof (Hk' _ _ Hv) as Hurl.
      rewrite lookup_insert in Hv. case_decide.
      * left. congruence.
      * right. rewrite Hurl. split; [exact Hv | congruence].
    + intros [-> | [Hv Hne]].
      * exists u. apply lookup_insert_eq.
      * exists (url v). rewrite lookup_insert_ne by congruence. exact Hv.
  - rewrite inKeyOrder_Permutation, length_fmap, length_map_to_list.
    apply map_size_insert_None, Hmiss.
  - apply inKeyOrder_sorted, Hk'.
Qed.

(** A submit of ["u"] with two videos in the store: the list then shows
    the three records, by url. *)
Lemma handleGetFormats_fetched_state_witness :
  let w := mkWorld (app scenarioWorld) twoVideos [] in
  let w' := (handleGetFormats (scenarioEnv (steadyDecoder 100 50 200)) w).2 in
  selectedFormat (app w') = "a" /\ downloads (trace w') = [("u", "b")]
  /\ length (storedVideos (app w')) = 3%nat
  /\ url <$> storedVideos (app w') = ["new"; "old"; "u"].
Proof.
  intros w.
  destruct (handleGetFormats_fetched_state
              (scenarioEnv (steadyDecoder 100 50 200)) w
              (mkVideoInfo "Title" 60 scenarioFormats)
              (mkVideoFormat "b" "720p" "mp4" "2" "1280x720" true "https://b")
              "bytes"
              (pictures (generateThumbnails (steadyDecoder 100 50 200)
                           defaultThumbnails).1)
              eq_refl eq_refl eq_refl eq_refl)
    as (_ & _ & _ & _ & Hsel & _ & _ & Hlist).
  - vm_compute. reflexivity.
  - destruct Hlist as (_ & Hlen & _).
    { unfold w, twoVideos. cbn [storage].
      do 2 apply keyed_storeVideo. exact keyed_empty. }
    split; [apply (inj Some); rewrite <- Hsel; reflexivity|].
    split; [vm_compute; reflexivity|].
    split; [rewrite Hlen; reflexivity | vm_compute; reflexivity].
Defined.

(** ** The variant without the cache *)

(** X24.  The submit of the variant without the cache.  It always ends with
    [loading] false.  When the formats arrive and [/thumbnails] answers at
    all, the submit succeeds even if that answer is a failure: no error is
    shown, the thumbnails are the answer's when it is ok and none otherwise,
    and the clip range is set to [17, 27] whatever the duration -- a range
    that lies in the video only when it lasts 27 seconds or more.  The
    format selected is the first listed format with audio; when no listed
    format has audio the selection made for an earlier video is kept. *)
Theorem handleGetFormatsRemote_cases (service : RemoteService) (a : App) :
  let a' := (handleGetFormatsRemote service a).1 in
  loading a' = false /\ app_url a' = app_url a
  /\ (forall data ok thumbnailData,
        remoteFormats service (app_url a) = Response true data ->
        remoteThumbnails service (app_url a) = Response ok thumbnailData ->
        error a' = "" /\ videoInfo a' = Some data
        /\ thumbnails a' = (if ok then thumbnailData else [])
        /\ startTime a' = 17%Q /\ endTime a' = 27%Q
        /\ (range_ok (duration data) a' <-> (27 <= duration data)%Q)
        /\ selectedFormat a' =
             match find has_audio (formats data) with
             | Some f => format_id f
             | None => selectedFormat a
             end)
  /\ ((forall data, remoteFormats service (app_url a) <> Response true data) ->
      videoInfo a' = None /\ startTime a' = startTime a
      /\ endTime a' = endTime a /\ selectedFormat a' = selectedFormat a).
Proof.
  intros a'. subst a'. unfold handleGetFormatsRemote. cbv zeta.
  split; [|split; [|split]].
  - destruct (remoteFormats service (app_url a)) as [|[|] data];
      try reflexivity.
    destruct (remoteThumbnails service (app_url a)); reflexivity.
  - destruct (remoteFormats service (app_url a)) as [|[|] data];
      try reflexivity.
    destruct (List.filter has_audio (formats data)),
      (remoteThumbnails service (app_url a)) as [|[|]]; reflexivity.
  - intros data ok thumbnailData -> ->.
    rewrite <- head_filter_find.
    destruct (List.filter has_audio (formats data)) as [|first others],
      ok; cbn; repeat split;
      try (intros (_ & H & _); exact H);
      try (cbn; lra).
  - intros Hfail.
    destruct (remoteFormats service (app_url a)) as [|[|] data];
      try (repeat split; reflexivity).
    destruct (Hfail data eq_refl).
Qed.

Lemma handleGetFormatsRemote_cases_witness :
  let fitting := (handleGetFormatsRemote (scenarioService 60 true)
                    (remoteApp "" false)).1 in
  let short := (handleGetFormatsRemote (scenarioService 20 false)
                  (remoteApp "old" false)).1 in
  (selectedFormat fitting = "b" /\ range_ok 60 fitting)
  /\ (selectedFormat short = "old" /\ error short = ""
      /\ ~ range_ok 20 short).
Proof.
  destruct (handleGetFormatsRemote_cases (scenarioService 60 true)
              (remoteApp "" false)) as (_ & _ & Hfit & _).
  destruct (Hfit (mkVideoInfo "Title" 60 scenarioFormats) false []
              eq_refl eq_refl) as (_ & _ & _ & _ & _ & Hrange & Hsel).
  destruct (handleGetFormatsRemote_cases (scenarioService 20 false)
              (remoteApp "old" false)) as (_ & _ & Hshort & _).
  destruct (Hshort (mkVideoInfo "Title" 20
                      [mkVideoFormat "a" "1080p" "mp4" "1" "1920x1080"
                                     false "https://a"]) false []
              eq_refl eq_refl) as (Herr & _ & _ & _ & _ & Hrange' & Hsel').
  split; [split|split; [|split]].
  - exact Hsel.
  - apply Hrange. vm_compute. discriminate.
  - exact Hsel'.
  - exact Herr.
  - intros H. apply Hrange' in H. vm_compute in H. congruence.
Defined.

(** X25.  The download of the variant without the cache.  It does nothing
    unless a format is selected and the disclaimer accepted (it does not ask
    for a video to be shown).  Past that gate it posts the url, the selected
    format and the current range to [/download], once; an ok answer is
    saved as [video_clip.mp4]; any other answer saves nothing and shows
    ['Failed to download video'], or the message of the network failure.
    It always ends with [loading] false and never changes the range
    or the selection. *)
Theorem handleDownloadRemote_cases (service : RemoteService) (a : App) :
  let a' := (handleDownloadRemote service a).1 in
  let effects := (handleDownloadRemote service a).2 in
  let request :=
    RemoteDownload (app_url a) (selectedFormat a) (startTime a) (endTime a) in
  (selectedFormat a = "" \/ acceptedDisclaimer a = false ->
   a' = a /\ effects = [])
  /\ (selectedFormat a <> "" -> acceptedDisclaimer a = true ->
      loading a' = false
      /\ (forall clip,
            remoteDownload service (app_url a) (selectedFormat a)
              (startTime a) (endTime a) = Response true clip ->
            effects = [request; RemoteSave "video_clip.mp4" clip]
            /\ error a' = "")
      /\ ((forall clip,
             remoteDownload service (app_url a) (selectedFormat a)
               (startTime a) (endTime a) <> Response true clip) ->
          effects = [request]
          /\ error a' =
               match remoteDownload service (app_url a) (selectedFormat a)
                       (startTime a) (endTime a) with
               | NetworkFailure message => message
               | Response _ _ => "Failed to download video"
               end))
  /\ startTime a' = startTime a /\ endTime a' = endTime a
  /\ selectedFormat a' = selectedFormat a /\ app_url a' = app_url a.
Proof.
  intros a' effects request. subst a' effects request.
  unfold handleDownloadRemote. cbv zeta. split; [|split].
  - intros [Hsel|Hacc].
    + rewrite Hsel. split; reflexivity.
    + rewrite Hacc, orb_true_r. split; reflexivity.
  - intros Hsel Hacc.
    rewrite bool_decide_eq_false_2 by exact Hsel. rewrite Hacc. cbn [orb negb].
    destruct (remoteDownload service (app_url a) (selectedFormat a)
                (startTime a) (endTime a)) as [message|[|] clip]; cbn.
    + split; [reflexivity|]. split; [intros clip [=]|]. intros _.
      split; reflexivity.
    + split; [reflexivity|]. split.
      * intros clip' [= <-]. split; reflexivity.
      * intros Hnot. destruct (Hnot clip eq_refl).
    + split; [reflexivity|]. split; [intros clip' [=]|]. intros _.
      split; reflexivity.
  - destruct (bool_decide _ || _); [repeat split|].
    destruct (remoteDownload service (app_url a) (selectedFormat a)
                (startTime a) (endTime a)) as [|[|]]; repeat split.
Qed.

Lemma handleDownloadRemote_cases_witness :
  (handleDownloadRemote (scenarioService 60 true) (remoteApp "b" true)).2
  = [RemoteDownload "u" "b" 17 27;
     RemoteSave "video_clip.mp4" "clip of u in b"]
  /\ (handleDownloadRemote (scenarioService 60 true) (remoteApp "b" false)).2
     = [].
Proof.
  destruct (handleDownloadRemote_cases (scenarioService 60 true)
              (remoteApp "b" true)) as (_ & Hopen & _).
  destruct (handleDownloadRemote_cases (scenarioService 60 true)
              (remoteApp "b" false)) as (Hshut & _).
  split.
  - destruct Hopen as (_ & Hok & _); [discriminate | reflexivity|].
    apply (Hok "clip of u in b" eq_refl).
  - apply Hshut. right. reflexivity.
Defined.
